(** * Autoflow frontend: the stores, the recording page and the test-run page

    A shallow embedding of the state-carrying parts of the Autoflow
    frontend:

    - [Types]        : the string-literal unions of [types/index.ts];
    - [BrowserStore] : the zustand store of [stores/browserStore.ts];
    - [TestRunPage]  : the React state of the test-run page together with
                       its socket handlers and its callbacks;
    - [StepModel], [StepTypes] : the step types of [types/index.ts];
    - [TimelineStore], [ChatStore] : the two other zustand stores;
    - [AssertionEditor] : the assertion dialog;
    - [HomePage]     : the recording page, which drives the three stores;
    - [TestRunControls], [HealingPanel] : the header buttons of the test-run
                       page and its healing panel;
    - [SettingsPage] : [updateSetting] of the settings page.

    React state becomes a record, every [setX] call a record update, every
    callback a function from worlds to worlds.  A world is the page state
    plus the two things the page talks to: the sockets it has created and
    the calls it has made to the REST API. *)

From Stdlib Require Import QArith Qcanon.
From stdpp Require Import base option list sets strings numbers.

Open Scope string_scope.
Open Scope list_scope.

(** ** [types/index.ts] (src/unnamed/part_001) *)

Module Types.

(** [export type BrowserStatus = 'idle' | 'starting' | 'running' | 'stopped' | 'error'] *)
Inductive BrowserStatus : Type :=
  | BsIdle
  | BsStarting
  | BsRunning
  | BsStopped
  | BsError.

(** [export type WebSocketMessageType =
      'chat' | 'status' | 'screenshot' | 'action' | 'complete' | 'error'] *)
Inductive WebSocketMessageType : Type :=
  | WsChat
  | WsStatus
  | WsScreenshot
  | WsAction
  | WsComplete
  | WsError.

(** The string literal behind each member of the union. *)
Definition ws_type_name (t : WebSocketMessageType) : string :=
  match t with
  | WsChat => "chat"
  | WsStatus => "status"
  | WsScreenshot => "screenshot"
  | WsAction => "action"
  | WsComplete => "complete"
  | WsError => "error"
  end.

(** The members of the union, in declaration order. *)
Definition WebSocketMessageType_members : list WebSocketMessageType :=
  [WsChat; WsStatus; WsScreenshot; WsAction; WsComplete; WsError].

(** The declared type set, as the strings a [WebSocketMessage.type] may hold. *)
Definition declared_message_types : list string :=
  ws_type_name <$> WebSocketMessageType_members.

End Types.

(** ** [stores/browserStore.ts] (src/frontend/src/stores/browserStore.ts) *)

Module BrowserStore.
Import Types.

Record BrowserState : Type := mkBrowserState {
  status : BrowserStatus;
  screenshot : option string;
  currentUrl : option string;
}.

(** The object literal passed to [create]. *)
Definition initial : BrowserState :=
  {| status := BsIdle; screenshot := None; currentUrl := None |}.

(** zustand's [set] merges the given keys into the current state. *)
Definition setStatus (st : BrowserStatus) (s : BrowserState) : BrowserState :=
  {| status := st; screenshot := screenshot s; currentUrl := currentUrl s |}.

Definition setScreenshot (img : string) (s : BrowserState) : BrowserState :=
  {| status := status s; screenshot := Some img; currentUrl := currentUrl s |}.

Definition setCurrentUrl (url : string) (s : BrowserState) : BrowserState :=
  {| status := status s; screenshot := screenshot s; currentUrl := Some url |}.

Definition reset (s : BrowserState) : BrowserState :=
  {| status := BsIdle; screenshot := None; currentUrl := None |}.

(** The store's actions, reified. *)
Inductive Action : Type :=
  | SetStatus (st : BrowserStatus)
  | SetScreenshot (img : string)
  | SetCurrentUrl (url : string)
  | Reset.

Definition dispatch (s : BrowserState) (a : Action) : BrowserState :=
  match a with
  | SetStatus st => setStatus st s
  | SetScreenshot img => setScreenshot img s
  | SetCurrentUrl url => setCurrentUrl url s
  | Reset => reset s
  end.

Definition replay (acts : list Action) (s : BrowserState) : BrowserState :=
  foldl dispatch s acts.

End BrowserStore.

(** ** The test-run page

    [TestRunPage] and the interfaces it declares or imports.  The page is
    the second document of src/frontend/src/app/layout.tsx; [HealingSuggestion]
    and the healing components are in src/unnamed/part_007, the settings
    page with [HealingSettings] in src/unnamed/part_010.

    JavaScript numbers become [Z] where they hold an index and [Qc] where
    they hold a measurement or a confidence; [undefined] and [null] become
    [None]. *)

Module TestRunPage.

(** *** Data *)

(** [StepStatus.status] *)
Inductive StepState : Type :=
  | Pending
  | Running
  | Passed
  | Failed
  | Skipped
  | Healing
  | Healed
  | WaitingApproval.

(** [interface StepStatus].  Optional fields are options; [index] is a
    JavaScript number holding an integer. *)
Record StepStatus : Type := mkStepStatus {
  ss_index : Z;
  ss_id : option string;
  ss_type : string;
  ss_status : StepState;
  ss_selector : option string;
  ss_value : option string;
  ss_error : option string;
  ss_original_selector : option string;
}.

(** [interface ApprovalRequest] *)
Record ApprovalRequest : Type := mkApprovalRequest {
  ar_step_index : Z;
  ar_original_selector : string;
  ar_suggested_selector : string;
  ar_confidence : Qc;
  ar_reasoning : option string;
}.

Inductive Rating : Type :=
  | Good
  | NeedsImprovement
  | Poor.

Record Ratings : Type := mkRatings {
  r_lcp : Rating;
  r_fcp : Rating;
  r_cls : Rating;
  r_ttfb : Rating;
}.

(** [interface PerformanceMetrics] *)
Record PerformanceMetrics : Type := mkPerformanceMetrics {
  pm_step_index : Z;
  pm_url : string;
  pm_ttfb : Qc;
  pm_fcp : Qc;
  pm_lcp : Qc;
  pm_dom_content_loaded : Qc;
  pm_load : Qc;
  pm_cls : Qc;
  pm_ratings : Ratings;
}.

(** [interface HealingSuggestion] of [components/healing/HealingDiff.tsx].
    [context] is [{url, error}]. *)
Record HealingSuggestion : Type := mkHealingSuggestion {
  step_index : Z;
  original_selector : string;
  suggested_selector : string;
  confidence : Qc;
  reasoning : string;
  alternative_selectors : option (list string);
  auto_approved : bool;
  context : option (string * string);
}.

(** [interface HealingSettings] of the settings page: the healing policy. *)
Record HealingSettings : Type := mkHealingSettings {
  enabled : bool;
  auto_approve : bool;
  auto_approve_threshold : Qc;
  mode : string;
  provider : string;
}.

(** Modelled from the spec: the persisted step source, an ordered list of
    steps fetched by the page.  [TestResponse] is declared in [lib/api],
    which the page only imports, so the record keeps what the page reads:
    the steps of [latest_version], and of each step its [id], [type],
    [selector] and [value]. *)
Record TestStep : Type := mkTestStep {
  ts_id : option string;
  ts_type : string;
  ts_selector : option string;
  ts_value : option string;
}.

Record TestResponse : Type := mkTestResponse {
  tr_name : string;
  tr_target_url : string;
  tr_latest_version : option (list TestStep);
}.

(** [useState<'idle' | 'running' | 'passed' | 'failed'>('idle')] *)
Inductive RunStatus : Type :=
  | RunIdle
  | RunRunning
  | RunPassed
  | RunFailed.


(** The React state of [TestRunPage], one field per [useState], plus the
    route parameter [testId].  ([wsRef] is declared but never written or
    read, and is left out.)  [ws] holds the address of a socket. *)
Record PageState : Type := mkPageState {
  testId : string;
  test : option TestResponse;
  screenshot : option string;
  stepStatuses : list StepStatus;
  runStatus : RunStatus;
  ws : option nat;
  error : option string;
  metrics : list PerformanceMetrics;
  showMetrics : bool;
  showHealing : bool;
  healingSuggestions : list HealingSuggestion;
  isHealingProcessing : bool;
  pendingApproval : option ApprovalRequest;
}.

(** The payload of an outbound control message. *)
Inductive Payload : Type :=
  | PApproved (approved : bool)
  | PEmpty.

(** Modelled from the spec: [TestRunnerWebSocket] of [lib/api], which the
    page only imports.  The spec gives one event stream per run, delivered
    in order to one consumer, and a small set of inbound control messages;
    the session ends when the run is terminal or stopped.  A socket is
    therefore a connection flag, cleared by [disconnect], and the log of the
    [send(type, data)] calls made on it; it delivers events to the handlers
    registered with [on] only while it is connected. *)
Record Socket : Type := mkSocket {
  connected : bool;
  sent : list (string * Payload);
}.

Definition disconnect (s : Socket) : Socket :=
  {| connected := false; sent := sent s |}.

Definition send (type : string) (data : Payload) (s : Socket) : Socket :=
  {| connected := connected s; sent := sent s ++ [(type, data)] |}.

(** Modelled from the spec: persistence is an external collaborator,
    reached through [testsApi] and [healingApi] of [lib/api], which the page
    only imports.  The world records the calls the page makes to them; what
    they resolve to is an argument of the callback that awaits them. *)
Inductive ApiCall : Type :=
  | ApiApproveSuggestionForStep (tid stepId selector : string)
  | ApiDeleteStep (tid stepId : string)
  | ApiGetTest (tid : string).

(** The page together with the objects it shares with the outside. *)
Record World : Type := mkWorld {
  page : PageState;
  sockets : list Socket;
  api_calls : list ApiCall;
}.

(** *** State updates

    One function per [setX]; the record is rebuilt with one field changed. *)

Definition set_test (v : option TestResponse) (p : PageState) : PageState :=
  mkPageState (testId p) v (screenshot p) (stepStatuses p) (runStatus p) (ws p)
    (error p) (metrics p) (showMetrics p) (showHealing p)
    (healingSuggestions p) (isHealingProcessing p) (pendingApproval p).

Definition set_screenshot (v : option string) (p : PageState) : PageState :=
  mkPageState (testId p) (test p) v (stepStatuses p) (runStatus p) (ws p)
    (error p) (metrics p) (showMetrics p) (showHealing p)
    (healingSuggestions p) (isHealingProcessing p) (pendingApproval p).

Definition set_stepStatuses (v : list StepStatus) (p : PageState) : PageState :=
  mkPageState (testId p) (test p) (screenshot p) v (runStatus p) (ws p)
    (error p) (metrics p) (showMetrics p) (showHealing p)
    (healingSuggestions p) (isHealingProcessing p) (pendingApproval p).

Definition set_runStatus (v : RunStatus) (p : PageState) : PageState :=
  mkPageState (testId p) (test p) (screenshot p) (stepStatuses p) v (ws p)
    (error p) (metrics p) (showMetrics p) (showHealing p)
    (healingSuggestions p) (isHealingProcessing p) (pendingApproval p).

Definition set_ws (v : option nat) (p : PageState) : PageState :=
  mkPageState (testId p) (test p) (screenshot p) (stepStatuses p) (runStatus p) v
    (error p) (metrics p) (showMetrics p) (showHealing p)
    (healingSuggestions p) (isHealingProcessing p) (pendingApproval p).

Definition set_error (v : option string) (p : PageState) : PageState :=
  mkPageState (testId p) (test p) (screenshot p) (stepStatuses p) (runStatus p) (ws p)
    v (metrics p) (showMetrics p) (showHealing p)
    (healingSuggestions p) (isHealingProcessing p) (pendingApproval p).

Definition set_metrics (v : list PerformanceMetrics) (p : PageState) : PageState :=
  mkPageState (testId p) (test p) (screenshot p) (stepStatuses p) (runStatus p) (ws p)
    (error p) v (showMetrics p) (showHealing p)
    (healingSuggestions p) (isHealingProcessing p) (pendingApproval p).

Definition set_showMetrics (v : bool) (p : PageState) : PageState :=
  mkPageState (testId p) (test p) (screenshot p) (stepStatuses p) (runStatus p) (ws p)
    (error p) (metrics p) v (showHealing p)
    (healingSuggestions p) (isHealingProcessing p) (pendingApproval p).

Definition set_showHealing (v : bool) (p : PageState) : PageState :=
  mkPageState (testId p) (test p) (screenshot p) (stepStatuses p) (runStatus p) (ws p)
    (error p) (metrics p) (showMetrics p) v
    (healingSuggestions p) (isHealingProcessing p) (pendingApproval p).

Definition set_healingSuggestions (v : list HealingSuggestion) (p : PageState) : PageState :=
  mkPageState (testId p) (test p) (screenshot p) (stepStatuses p) (runStatus p) (ws p)
    (error p) (metrics p) (showMetrics p) (showHealing p)
    v (isHealingProcessing p) (pendingApproval p).

Definition set_isHealingProcessing (v : bool) (p : PageState) : PageState :=
  mkPageState (testId p) (test p) (screenshot p) (stepStatuses p) (runStatus p) (ws p)
    (error p) (metrics p) (showMetrics p) (showHealing p)
    (healingSuggestions p) v (pendingApproval p).

Definition set_pendingApproval (v : option ApprovalRequest) (p : PageState) : PageState :=
  mkPageState (testId p) (test p) (screenshot p) (stepStatuses p) (runStatus p) (ws p)
    (error p) (metrics p) (showMetrics p) (showHealing p)
    (healingSuggestions p) (isHealingProcessing p) v.

(** Lift a page update to the world. *)
Definition on_page (f : PageState → PageState) (w : World) : World :=
  {| page := f (page w); sockets := sockets w; api_calls := api_calls w |}.

(** Apply a method to the socket object at address [sid]. *)
Definition on_socket (sid : nat) (f : Socket → Socket) (w : World) : World :=
  {| page := page w; sockets := alter f sid (sockets w); api_calls := api_calls w |}.

Definition call_api (c : ApiCall) (w : World) : World :=
  {| page := page w; sockets := sockets w; api_calls := api_calls w ++ [c] |}.

(** [{ ...s, status: st }] and the other object spreads of the page. *)
Definition with_status (st : StepState) (s : StepStatus) : StepStatus :=
  mkStepStatus (ss_index s) (ss_id s) (ss_type s) st (ss_selector s)
    (ss_value s) (ss_error s) (ss_original_selector s).

Definition with_status_error (st : StepState) (err : option string)
    (s : StepStatus) : StepStatus :=
  mkStepStatus (ss_index s) (ss_id s) (ss_type s) st (ss_selector s)
    (ss_value s) err (ss_original_selector s).

Definition with_selectors (sel orig : string) (s : StepStatus) : StepStatus :=
  mkStepStatus (ss_index s) (ss_id s) (ss_type s) (ss_status s) (Some sel)
    (ss_value s) (ss_error s) (Some orig).

Definition with_auto_approved (b : bool) (h : HealingSuggestion) : HealingSuggestion :=
  mkHealingSuggestion (step_index h) (original_selector h) (suggested_selector h)
    (confidence h) (reasoning h) (alternative_selectors h) b (context h).

(** [steps.map((s, i) => ({ index: i, id: s.id, type: s.type,
       status: 'pending', selector: s.selector, value: s.value }))] *)
Definition to_step_status (i : nat) (s : TestStep) : StepStatus :=
  {| ss_index := Z.of_nat i; ss_id := ts_id s; ss_type := ts_type s;
     ss_status := Pending; ss_selector := ts_selector s; ss_value := ts_value s;
     ss_error := None; ss_original_selector := None |}.

Definition to_step_statuses (steps : list TestStep) : list StepStatus :=
  imap to_step_status steps.

(** [arr[i]] for a number [i] holding an integer: [undefined] when [i] is
    negative or past the end. *)
Definition js_index {A : Type} (l : list A) (i : Z) : option A :=
  if decide (0 ≤ i)%Z then l !! Z.to_nat i else None.

(** [step?.id] used as a condition: a missing step, a missing id and the
    empty string are all falsy. *)
Definition truthy_id (step : option StepStatus) : option string :=
  match step with
  | Some s =>
      match ss_id s with
      | Some i => if decide (i = EmptyString) then None else Some i
      | None => None
      end
  | None => None
  end.

(** *** Mounting: [loadTest]

    The effect that runs when the page mounts: it fetches the test and
    builds the step list.  [outcome] is what [testsApi.get] resolves to,
    [None] when it rejects. *)

Definition mount (tid : string) : World :=
  {| page := mkPageState tid None None [] RunIdle None None [] false false [] false None;
     sockets := [];
     api_calls := [] |}.

Definition loadTest (outcome : option TestResponse) (w : World) : World :=
  let w := call_api (ApiGetTest (testId (page w))) w in
  match outcome with
  | Some data =>
      let w := on_page (set_test (Some data)) w in
      match tr_latest_version data with
      | Some steps => on_page (set_stepStatuses (to_step_statuses steps)) w
      | None => w
      end
  | None => on_page (set_error (Some "Failed to load test")) w
  end.

(** *** Events of the run socket and their handlers *)

(** One constructor per [socket.on(type, handler)] of [startRun], carrying
    the fields of [data] that the handler reads. *)
Inductive Event : Type :=
  | EvScreenshot (image : string)
  | EvStep (index : Z) (status : StepState) (err : option string)
  | EvMetrics (m : PerformanceMetrics)
  | EvHealing (h : HealingSuggestion)
  | EvApprovalRequest (r : ApprovalRequest)
  | EvComplete (success : bool) (message : string)
  | EvError (message : string).

(** The first argument of the [socket.on] call that registers the handler. *)
Definition event_type (ev : Event) : string :=
  match ev with
  | EvScreenshot _ => "screenshot"
  | EvStep _ _ _ => "step"
  | EvMetrics _ => "metrics"
  | EvHealing _ => "healing"
  | EvApprovalRequest _ => "approval_request"
  | EvComplete _ _ => "complete"
  | EvError _ => "error"
  end.

(** The types [startRun] registers a handler for, in source order. *)
Definition registered_types : list string :=
  ["screenshot"; "step"; "metrics"; "healing"; "approval_request";
   "complete"; "error"].


Definition on_screenshot (image : string) (w : World) : World :=
  on_page (set_screenshot (Some image)) w.

(** [(s) => s.index === step.index
             ? { ...s, status: step.status, error: step.error } : s] *)
Definition step_update (index : Z) (status : StepState) (err : option string)
    (s : StepStatus) : StepStatus :=
  if decide (ss_index s = index) then with_status_error status err s else s.

Definition on_step (index : Z) (status : StepState) (err : option string)
    (w : World) : World :=
  on_page (λ p,
    set_stepStatuses (step_update index status err <$> stepStatuses p) p) w.

Definition on_metrics (m : PerformanceMetrics) (w : World) : World :=
  on_page (λ p, set_metrics (metrics p ++ [m]) p) w.

Definition on_healing (h : HealingSuggestion) (w : World) : World :=
  let w := on_page (λ p, set_healingSuggestions (healingSuggestions p ++ [h]) p) w in
  if auto_approved h then w else on_page (set_showHealing true) w.

Definition on_approval_request (r : ApprovalRequest) (w : World) : World :=
  on_page (set_pendingApproval (Some r)) w.

(** [socket] is the variable of [startRun] the closure captured: the socket
    at address [sid]. *)
Definition on_complete (sid : nat) (success : bool) (message : string)
    (w : World) : World :=
  let w := on_page (set_runStatus (if success then RunPassed else RunFailed)) w in
  let w := if success then w else on_page (set_error (Some message)) w in
  let w := on_socket sid disconnect w in
  on_page (set_ws None) w.

Definition on_error (sid : nat) (message : string) (w : World) : World :=
  let w := on_page (set_runStatus RunFailed) w in
  let w := on_page (set_error (Some message)) w in
  let w := on_socket sid disconnect w in
  on_page (set_ws None) w.

Definition handle_event (sid : nat) (ev : Event) (w : World) : World :=
  match ev with
  | EvScreenshot image => on_screenshot image w
  | EvStep index status err => on_step index status err w
  | EvMetrics m => on_metrics m w
  | EvHealing h => on_healing h w
  | EvApprovalRequest r => on_approval_request r w
  | EvComplete success message => on_complete sid success message w
  | EvError message => on_error sid message w
  end.

(** Whether the socket at [sid] exists and is connected. *)
Definition is_connected (sid : nat) (w : World) : bool :=
  match sockets w !! sid with
  | Some s => connected s
  | None => false
  end.

(** The socket at [sid] receives [ev]: the handler runs if the socket is
    connected, and nothing happens otherwise. *)
Definition deliver (sid : nat) (ev : Event) (w : World) : World :=
  if is_connected sid w then handle_event sid ev w else w.

(** *** Callbacks *)

(** [startRun].  [connect_ok] tells whether [socket.connect()] resolves. *)
Definition startRun (connect_ok : bool) (w : World) : World :=
  match test (page w) with
  | None => w
  | Some _ =>
      let w := on_page (set_runStatus RunRunning) w in
      let w := on_page (set_error None) w in
      let w := on_page (set_metrics []) w in
      let w := on_page (set_healingSuggestions []) w in
      let w := on_page (set_showHealing false) w in
      let w := on_page (λ p,
                 set_stepStatuses (with_status Pending <$> stepStatuses p) p) w in
      let sid := length (sockets w) in
      if connect_ok then
        let w := {| page := page w;
                    sockets := sockets w ++ [{| connected := true; sent := [] |}];
                    api_calls := api_calls w |} in
        on_page (set_ws (Some sid)) w
      else
        let w := {| page := page w;
                    sockets := sockets w ++ [{| connected := false; sent := [] |}];
                    api_calls := api_calls w |} in
        let w := on_page (set_runStatus RunFailed) w in
        on_page (set_error (Some "Failed to start test run")) w
  end.

(** The Rerun buttons: [() => { setRunStatus('idle'); startRun(); }] *)
Definition rerun (connect_ok : bool) (w : World) : World :=
  startRun connect_ok (on_page (set_runStatus RunIdle) w).

(** [stopRun] *)
Definition stopRun (w : World) : World :=
  let w := match ws (page w) with
           | Some sid => on_socket sid disconnect w
           | None => w
           end in
  let w := on_page (set_ws None) w in
  on_page (set_runStatus RunIdle) w.

(** [handleApprovalResponse] *)
Definition handleApprovalResponse (approved : bool) (w : World) : World :=
  match ws (page w), pendingApproval (page w) with
  | Some sid, Some _ =>
      let w := on_socket sid (send "approval_response" (PApproved approved)) w in
      on_page (set_pendingApproval None) w
  | _, _ => w
  end.

(** What the two awaited calls of [deleteStep] do. *)
Inductive DeleteOutcome : Type :=
  | DeleteRejected
  | ReloadRejected
  | Reloaded (data : TestResponse).

(** [deleteStep] *)
Definition deleteStep (stepId : string) (outcome : DeleteOutcome) (w : World) : World :=
  match test (page w), runStatus (page w) with
  | None, _ => w
  | Some _, RunRunning => w
  | Some _, _ =>
      let tid := testId (page w) in
      let w := call_api (ApiDeleteStep tid stepId) w in
      match outcome with
      | DeleteRejected => on_page (set_error (Some "Failed to delete step")) w
      | ReloadRejected =>
          let w := call_api (ApiGetTest tid) w in
          on_page (set_error (Some "Failed to delete step")) w
      | Reloaded data =>
          let w := call_api (ApiGetTest tid) w in
          let w := on_page (set_test (Some data)) w in
          match tr_latest_version data with
          | Some steps => on_page (set_stepStatuses (to_step_statuses steps)) w
          | None => w
          end
      end
  end.

(** [(s) => s.step_index === suggestion.step_index
             ? { ...s, auto_approved: true } : s] *)
Definition mark_approved (suggestion s : HealingSuggestion) : HealingSuggestion :=
  if decide (step_index s = step_index suggestion)
  then with_auto_approved true s else s.

(** [(s) => s.index === suggestion.step_index
             ? { ...s, selector: suggestion.suggested_selector,
                 original_selector: suggestion.original_selector } : s] *)
Definition apply_suggestion (suggestion : HealingSuggestion) (s : StepStatus)
    : StepStatus :=
  if decide (ss_index s = step_index suggestion)
  then with_selectors (suggested_selector suggestion) (original_selector suggestion) s
  else s.

(** The body of [handleApproveHealing].  [snapshot] is the [stepStatuses]
    the callback closed over; [api_ok] tells whether
    [healingApi.approveSuggestionForStep] resolves. *)
Definition approveHealing (snapshot : list StepStatus) (suggestion : HealingSuggestion)
    (api_ok : bool) (w : World) : World :=
  let w := on_page (set_isHealingProcessing true) w in
  let w :=
    match truthy_id (js_index snapshot (step_index suggestion)) with
    | Some stepId =>
        let w := call_api (ApiApproveSuggestionForStep (testId (page w)) stepId
                             (suggested_selector suggestion)) w in
        if api_ok then
          let w := on_page (λ p,
            set_healingSuggestions
              (mark_approved suggestion <$> healingSuggestions p) p) w in
          on_page (λ p,
            set_stepStatuses (apply_suggestion suggestion <$> stepStatuses p) p) w
        else on_page (set_error (Some "Failed to apply healing suggestion")) w
    | None => w
    end in
  on_page (set_isHealingProcessing false) w.

(** [handleApproveHealing], called from a fresh render. *)
Definition handleApproveHealing (suggestion : HealingSuggestion) (api_ok : bool)
    (w : World) : World :=
  approveHealing (stepStatuses (page w)) suggestion api_ok w.

(** [handleRejectHealing] *)
Definition handleRejectHealing (suggestion : HealingSuggestion) (w : World) : World :=
  on_page (λ p,
    set_healingSuggestions
      (filter (λ s, step_index s ≠ step_index suggestion) (healingSuggestions p)) p) w.

(** [healingSuggestions.filter((s) => !s.auto_approved)] *)
Definition pendingHealing (l : list HealingSuggestion) : list HealingSuggestion :=
  filter (λ s, auto_approved s = false) l.

(** The loop of [handleApproveAllHealing]: every call goes through the
    [handleApproveHealing] of the render the loop started in.  [oks] gives
    the outcome of the successive API calls ([true] once it runs out). *)
Fixpoint approve_each (snapshot : list StepStatus) (pending : list HealingSuggestion)
    (oks : list bool) (w : World) : World :=
  match pending with
  | [] => w
  | s :: rest =>
      approve_each snapshot rest (tail oks) (approveHealing snapshot s (hd true oks) w)
  end.

(** [handleApproveAllHealing] *)
Definition handleApproveAllHealing (oks : list bool) (w : World) : World :=
  approve_each (stepStatuses (page w)) (pendingHealing (healingSuggestions (page w)))
    oks w.

(** The three tab buttons. *)
Definition selectSteps (w : World) : World :=
  on_page (set_showHealing false) (on_page (set_showMetrics false) w).

Definition selectMetrics (w : World) : World :=
  on_page (set_showHealing false) (on_page (set_showMetrics true) w).

Definition selectHealing (w : World) : World :=
  on_page (set_showMetrics false) (on_page (set_showHealing true) w).

(** *** What the page renders *)




(** *** Traces *)

(** Everything that can happen to a mounted page: a click on one of its
    controls, or an event arriving on one of the sockets it created.  Each
    callback runs to completion, with the outcome of its awaited calls
    given as an argument. *)
Inductive Op : Type :=
  | StartRun (connect_ok : bool)
  | Rerun (connect_ok : bool)
  | Deliver (sid : nat) (ev : Event)
  | StopRun
  | ApprovalResponse (approved : bool)
  | DeleteStep (stepId : string) (outcome : DeleteOutcome)
  | ApproveHealing (suggestion : HealingSuggestion) (api_ok : bool)
  | RejectHealing (suggestion : HealingSuggestion)
  | ApproveAllHealing (oks : list bool)
  | SelectSteps
  | SelectMetrics
  | SelectHealing.

Definition step (op : Op) (w : World) : World :=
  match op with
  | StartRun ok => startRun ok w
  | Rerun ok => rerun ok w
  | Deliver sid ev => deliver sid ev w
  | StopRun => stopRun w
  | ApprovalResponse approved => handleApprovalResponse approved w
  | DeleteStep stepId outcome => deleteStep stepId outcome w
  | ApproveHealing suggestion ok => handleApproveHealing suggestion ok w
  | RejectHealing suggestion => handleRejectHealing suggestion w
  | ApproveAllHealing oks => handleApproveAllHealing oks w
  | SelectSteps => selectSteps w
  | SelectMetrics => selectMetrics w
  | SelectHealing => selectHealing w
  end.

Fixpoint run (ops : list Op) (w : World) : World :=
  match ops with
  | [] => w
  | op :: rest => run rest (step op w)
  end.

(** The events whose handler actually ran along a trace, with the socket
    they arrived on. *)
Fixpoint processed (ops : list Op) (w : World) : list (nat * Event) :=
  match ops with
  | [] => []
  | op :: rest =>
      match op with
      | Deliver sid ev =>
          if is_connected sid w then (sid, ev) :: processed rest (step op w)
          else processed rest (step op w)
      | _ => processed rest (step op w)
      end
  end.




(** The world with the metrics list emptied: everything but the metrics. *)
Definition forget_metrics (w : World) : World := on_page (set_metrics []) w.

(** Two worlds that differ at most in their metrics list. *)
Definition same_but_metrics (w1 w2 : World) : Prop :=
  forget_metrics w1 = forget_metrics w2.






(** Every entry's [index] is its position, as [to_step_statuses] builds it. *)
Definition indexed (l : list StepStatus) : Prop :=
  ∀ pos s, l !! pos = Some s → ss_index s = Z.of_nat pos.


(** The socket at [sid] has been created and is disconnected. *)
Definition closed (sid : nat) (w : World) : Prop :=
  ∃ s, sockets w !! sid = Some s ∧ connected s = false.


(** The number of [send] calls made so far, over all sockets. *)
Definition sent_total (w : World) : nat :=
  sum_list_with (λ s, length (sent s)) (sockets w).

(** 1 while an approval request is pending, 0 otherwise. *)
Definition pending_count (w : World) : nat :=
  match pendingApproval (page w) with
  | Some _ => 1
  | None => 0
  end.

(** The approval requests whose handler ran along a trace. *)
Definition requests_processed (ops : list Op) (w : World) : nat :=
  length (filter (λ e, event_type (snd e) = "approval_request") (processed ops w)).

(** [ws], when set, points to a connected socket. *)
Definition ws_connected (w : World) : Prop :=
  ∀ sid, ws (page w) = Some sid → is_connected sid w = true.

End TestRunPage.

(** ** What the specification says, for comparison *)

Module Spec.
Import TestRunPage.

(** The eight kinds the specification lists for the per-run event stream. *)
Definition spec_event_kinds : list string :=
  ["status"; "screenshot"; "step"; "metrics"; "healing"; "approval_request";
   "complete"; "error"].



End Spec.

(** ** A login test, used to exercise the definitions *)

Module Scenario.
Import TestRunPage.

Definition login_test : TestResponse :=
  {| tr_name := "Login";
     tr_target_url := "/login";
     tr_latest_version := Some
       [ mkTestStep (Some "s0") "navigate" None (Some "/login");
         mkTestStep (Some "s1") "fill" (Some "#email") (Some "a@b.com");
         mkTestStep (Some "s2") "click" (Some "#submit") None ] |}.

(** The page after it has mounted and loaded the test. *)
Definition loaded : World := loadTest (Some login_test) (mount "t1").

(** A run in which step 0 has passed and step 1 is in flight. *)
Definition in_flight : World :=
  run [StartRun true;
       Deliver 0 (EvStep 0 Running None);
       Deliver 0 (EvStep 0 Passed None);
       Deliver 0 (EvStep 1 Running None)] loaded.



Definition draft_repair : HealingSuggestion :=
  {| step_index := 0;
     original_selector := "#go";
     suggested_selector := "#start";
     confidence := Q2Qc (9 # 10);
     reasoning := "renamed";
     alternative_selectors := None;
     auto_approved := false;
     context := None |}.

(** Threshold 0.85, auto-approval on. *)
Definition policy : HealingSettings :=
  {| enabled := true; auto_approve := true;
     auto_approve_threshold := Q2Qc (85 # 100);
     mode := "inline"; provider := "openai" |}.

(** A repair for step 2 with confidence 0.5: below the threshold, so not
    auto-approved. *)
Definition low_confidence : HealingSuggestion :=
  {| step_index := 2;
     original_selector := "#submit";
     suggested_selector := "#signin-btn";
     confidence := Q2Qc (1 # 2);
     reasoning := "renamed";
     alternative_selectors := None;
     auto_approved := false;
     context := None |}.

(** A second repair for the same step. *)
Definition second_opinion : HealingSuggestion :=
  {| step_index := 2;
     original_selector := "#submit";
     suggested_selector := "button.signin";
     confidence := Q2Qc (2 # 5);
     reasoning := "class";
     alternative_selectors := None;
     auto_approved := false;
     context := None |}.

Definition approval_for_step_2 : ApprovalRequest :=
  {| ar_step_index := 2;
     ar_original_selector := "#submit";
     ar_suggested_selector := "#signin-btn";
     ar_confidence := Q2Qc (1 # 2);
     ar_reasoning := None |}.


End Scenario.

(** ** Steps as recorded: [types/index.ts] (src/unnamed/part_001) *)

Module StepModel.







(** [export type AssertionOperator] *)
Inductive AssertionOperator : Type :=
  | OpEquals
  | OpContains
  | OpMatches
  | OpNotEquals
  | OpNotContains
  | OpGt
  | OpLt
  | OpGte
  | OpLte.

Definition operator_name (o : AssertionOperator) : string :=
  match o with
  | OpEquals => "equals"
  | OpContains => "contains"
  | OpMatches => "matches"
  | OpNotEquals => "not_equals"
  | OpNotContains => "not_contains"
  | OpGt => "gt"
  | OpLt => "lt"
  | OpGte => "gte"
  | OpLte => "lte"
  end.

(** [export interface AssertionConfig].  Every key is optional. *)
Record AssertionConfig : Type := mkAssertionConfig {
  expected : option string;
  operator : option AssertionOperator;
  attribute : option string;
  api_method : option string;
  api_url_pattern : option string;
  api_status : option Z;
  api_body_contains : option string;
}.

(** [export interface AssertionResult] *)
Record AssertionResult : Type := mkAssertionResult {
  passed : bool;
  message : string;
  actual : option string;
}.

(** [export interface Step].  [type] is declared a [StepType], but the
    recording page fills it with [action.type as StepType], a string sent by
    the server, and filters on it afterwards: it is a string here. *)
Record Step : Type := mkStep {
  id : string;
  type : string;
  selector : option string;
  value : option string;
  screenshot : option string;
  timestamp : string;
  assertion_config : option AssertionConfig;
  assertion_result : option AssertionResult;
}.

(** [Partial<Step>]: [None] is an absent key.  An optional field may also
    be present and [undefined] ([Some None]), which a spread copies. *)
Record StepPatch : Type := mkStepPatch {
  p_id : option string;
  p_type : option string;
  p_selector : option (option string);
  p_value : option (option string);
  p_screenshot : option (option string);
  p_timestamp : option string;
  p_assertion_config : option (option AssertionConfig);
  p_assertion_result : option (option AssertionResult);
}.

(** [{ ...step, ...updates }] *)
Definition patch (u : StepPatch) (s : Step) : Step :=
  {| id := default (id s) (p_id u);
     type := default (type s) (p_type u);
     selector := default (selector s) (p_selector u);
     value := default (value s) (p_value u);
     screenshot := default (screenshot s) (p_screenshot u);
     timestamp := default (timestamp s) (p_timestamp u);
     assertion_config := default (assertion_config s) (p_assertion_config u);
     assertion_result := default (assertion_result s) (p_assertion_result u) |}.

(** [{ ...step, id: uuid }] *)
Definition with_id (uuid : string) (s : Step) : Step :=
  mkStep uuid (type s) (selector s) (value s) (screenshot s) (timestamp s)
    (assertion_config s) (assertion_result s).

(** The patch with no key. *)
Definition empty_patch : StepPatch :=
  mkStepPatch None None None None None None None None.

(** [step.type.startsWith('assert_')] *)
Definition isAssertion (s : Step) : bool := String.prefix "assert_" (type s).

End StepModel.

(** ** [stores/timelineStore.ts] (src/unnamed/part_002) *)

Module TimelineStore.
Import StepModel.

Record TimelineState : Type := mkTimelineState {
  steps : list Step;
  selectedStepId : option string;
}.

Definition initial : TimelineState := {| steps := []; selectedStepId := None |}.

(** [addStep]; [uuid] is what [crypto.randomUUID()] returns. *)
Definition addStep (uuid : string) (step : Step) (st : TimelineState) : TimelineState :=
  {| steps := steps st ++ [with_id uuid step]; selectedStepId := selectedStepId st |}.

(** [updateStep] *)
Definition updateStep (i : string) (updates : StepPatch) (st : TimelineState)
    : TimelineState :=
  {| steps := (λ step, if decide (id step = i) then patch updates step else step)
                <$> steps st;
     selectedStepId := selectedStepId st |}.

(** [removeStep] *)
Definition removeStep (i : string) (st : TimelineState) : TimelineState :=
  {| steps := filter (λ step, id step ≠ i) (steps st);
     selectedStepId := if decide (selectedStepId st = Some i) then None
                       else selectedStepId st |}.

(** The start index [Array.prototype.splice] works from: a negative
    [start] counts from the end, and the result is clamped to [0, len]. *)
Definition splice_start (start : Z) (len : nat) : nat :=
  if decide (start < 0)%Z
  then Z.to_nat (Z.max (Z.of_nat len + start) 0)
  else Z.to_nat (Z.min start (Z.of_nat len)).

(** [const [removed] = arr.splice(start, 1)]: the element taken out
    ([undefined] when there is none at the start index) and the array left. *)
Definition splice_remove {A : Type} (start : Z) (l : list A) : option A * list A :=
  let i := splice_start start (length l) in (l !! i, delete i l).

(** [arr.splice(start, 0, x)] *)
Definition splice_insert {A : Type} (start : Z) (x : A) (l : list A) : list A :=
  let i := splice_start start (length l) in take i l ++ x :: drop i l.

(** The array [reorderSteps] builds.  [removed] may be [undefined], and is
    inserted all the same: the elements of the result are options. *)
Definition reorder_array {A : Type} (fromIndex toIndex : Z) (l : list A)
    : list (option A) :=
  let '(removed, rest) := splice_remove fromIndex l in
  splice_insert toIndex removed (Some <$> rest).

(** The array, when it holds no [undefined]. *)
Fixpoint all_defined {A : Type} (l : list (option A)) : option (list A) :=
  match l with
  | [] => Some []
  | Some x :: rest =>
      match all_defined rest with
      | Some xs => Some (x :: xs)
      | None => None
      end
  | None :: _ => None
  end.

(** [reorderSteps].  [None] stands for a state whose [steps] holds
    [undefined], which [Step[]] does not describe. *)
Definition reorderSteps (fromIndex toIndex : Z) (st : TimelineState)
    : option TimelineState :=
  match all_defined (reorder_array fromIndex toIndex (steps st)) with
  | Some l => Some {| steps := l; selectedStepId := selectedStepId st |}
  | None => None
  end.

(** [selectStep] *)
Definition selectStep (i : option string) (st : TimelineState) : TimelineState :=
  {| steps := steps st; selectedStepId := i |}.

(** [clearSteps] *)
Definition clearSteps (st : TimelineState) : TimelineState :=
  {| steps := []; selectedStepId := None |}.

(** [setSteps] *)
Definition setSteps (l : list Step) (st : TimelineState) : TimelineState :=
  {| steps := l; selectedStepId := selectedStepId st |}.

(** [arr.findIndex(p)]: the first index whose element satisfies [p], or -1. *)
Definition findIndex {A : Type} (P : A → Prop) `{∀ x, Decision (P x)} (l : list A) : Z :=
  match list_find P l with
  | Some (i, _) => Z.of_nat i
  | None => (-1)%Z
  end.

(** [handleDragEnd] of [StepTimeline]: [over] may be null. *)
Definition handleDragEnd (active : string) (over : option string) (st : TimelineState)
    : option TimelineState :=
  match over with
  | Some o =>
      if decide (active ≠ o)
      then reorderSteps (findIndex (λ s, id s = active) (steps st))
                        (findIndex (λ s, id s = o) (steps st)) st
      else Some st
  | None => Some st
  end.

(** The ids of the steps, in order. *)
Definition step_ids (st : TimelineState) : list string := id <$> steps st.

End TimelineStore.

(** ** [stores/chatStore.ts] (src/unnamed/part_003) *)

Module ChatStore.

(** [ChatMessage.role] *)
Inductive Role : Type :=
  | User
  | Assistant
  | System.

#[global] Instance Role_eq_dec : EqDecision Role.
Proof. solve_decision. Defined.

(** [export interface ChatMessage] *)
Record ChatMessage : Type := mkChatMessage {
  m_id : string;
  m_role : Role;
  m_content : string;
  m_timestamp : string;
}.

Record ChatState : Type := mkChatState {
  messages : list ChatMessage;
  isTyping : bool;
  sessionId : option string;
}.

Definition initial : ChatState :=
  {| messages := []; isTyping := false; sessionId := None |}.

(** [addMessage]; [uuid] and [now] are what [crypto.randomUUID()] and
    [new Date().toISOString()] return. *)
Definition addMessage (uuid now : string) (role : Role) (content : string)
    (s : ChatState) : ChatState :=
  {| messages := messages s ++ [mkChatMessage uuid role content now];
     isTyping := isTyping s;
     sessionId := sessionId s |}.

Definition setTyping (typing : bool) (s : ChatState) : ChatState :=
  {| messages := messages s; isTyping := typing; sessionId := sessionId s |}.

Definition setSessionId (i : string) (s : ChatState) : ChatState :=
  {| messages := messages s; isTyping := isTyping s; sessionId := Some i |}.

Definition clearMessages (s : ChatState) : ChatState :=
  {| messages := []; isTyping := isTyping s; sessionId := sessionId s |}.

End ChatStore.

(** ** [components/timeline/AssertionEditor.tsx]
    (src/frontend/src/components/timeline/AssertionEditor.tsx) *)

Module AssertionEditor.
Import StepModel.



(** The [useState] fields of the dialog.  [assertionType] is set from
    [step.type] by a cast, so it is a string. *)
Record Form : Type := mkForm {
  assertionType : string;
  f_selector : string;
  f_expected : string;
  f_operator : AssertionOperator;
  f_attribute : string;
  apiMethod : string;
  apiUrlPattern : string;
  apiStatus : string;
  apiBodyContains : string;
}.

(** The form of a dialog opened without a step. *)
Definition blank : Form :=
  mkForm "assert_visible" EmptyString EmptyString OpEquals EmptyString "GET"
    EmptyString "200" EmptyString.

(** The object [handleSave] passes to [onSave]: the keys [id], [type],
    [selector], [assertion_config] and [timestamp], the first, third and
    fourth possibly [undefined]. *)
Record Draft : Type := mkDraft {
  d_id : option string;
  d_type : string;
  d_selector : option string;
  d_config : option AssertionConfig;
  d_timestamp : string;
}.

(** [['assert_text', 'assert_value', 'assert_attribute', 'assert_url']
      .includes(assertionType)] *)
Definition needsExpected (t : string) : bool :=
  bool_decide (t ∈ ["assert_text"; "assert_value"; "assert_attribute"; "assert_url"]).

(** [!['assert_url', 'assert_api'].includes(assertionType)] *)
Definition needsSelector (t : string) : bool :=
  negb (bool_decide (t ∈ ["assert_url"; "assert_api"])).

Definition needsAttribute (t : string) : bool := bool_decide (t = "assert_attribute").

Definition needsApiConfig (t : string) : bool := bool_decide (t = "assert_api").

(** A string used as a condition: the empty string is falsy. *)
Definition truthy (s : string) : bool := negb (bool_decide (s = EmptyString)).

(** [x || y] on strings. *)
Definition or_else (s d : string) : string := if truthy s then s else d.

(** [parseInt(apiStatus) || 200], given what [parseInt] returns ([None]
    for [NaN]): [NaN] and 0 are falsy. *)
Definition status_or_200 (parsed : option Z) : Z :=
  match parsed with
  | Some n => if decide (n = 0%Z) then 200%Z else n
  | None => 200%Z
  end.

(** The [config] object [handleSave] fills, key by key. *)
Definition build_config (f : Form) (parsed : option Z) : AssertionConfig :=
  let t := assertionType f in
  {| expected := if needsExpected t then Some (f_expected f) else None;
     operator := if needsExpected t then Some (f_operator f) else None;
     attribute := if needsAttribute t then Some (f_attribute f) else None;
     api_method := if needsApiConfig t then Some (apiMethod f) else None;
     api_url_pattern := if needsApiConfig t then Some (apiUrlPattern f) else None;
     api_status := if needsApiConfig t then Some (status_or_200 parsed) else None;
     api_body_contains :=
       if needsApiConfig t && truthy (apiBodyContains f)
       then Some (apiBodyContains f) else None |}.

(** [Object.keys(config).length > 0] *)
Definition has_keys (c : AssertionConfig) : bool :=
  bool_decide (is_Some (expected c)) || bool_decide (is_Some (operator c))
  || bool_decide (is_Some (attribute c)) || bool_decide (is_Some (api_method c))
  || bool_decide (is_Some (api_url_pattern c)) || bool_decide (is_Some (api_status c))
  || bool_decide (is_Some (api_body_contains c)).

(** [handleSave], up to the call of [onOpenChange(false)]: the object given
    to [onSave].  [step] is the step being edited, [parsed] what
    [parseInt(apiStatus)] returns, [now] the current time as a string. *)
Definition handleSave (step : option Step) (f : Form) (parsed : option Z)
    (now : string) : Draft :=
  let t := assertionType f in
  let config := build_config f parsed in
  {| d_id := id <$> step;
     d_type := t;
     d_selector := if needsSelector t then Some (f_selector f) else None;
     d_config := if has_keys config then Some config else None;
     d_timestamp := match step with
                    | Some s => or_else (timestamp s) now
                    | None => now
                    end |}.

(** The Save button is [disabled={needsSelector && !selector}]. *)
Definition canSave (f : Form) : bool :=
  negb (needsSelector (assertionType f) && negb (truthy (f_selector f))).

(** The draft as a [Partial<Step>]: its five keys are present. *)
Definition draft_patch (d : Draft) (i : string) : StepPatch :=
  {| p_id := Some i;
     p_type := Some (d_type d);
     p_selector := Some (d_selector d);
     p_value := None;
     p_screenshot := None;
     p_timestamp := Some (d_timestamp d);
     p_assertion_config := Some (d_config d);
     p_assertion_result := None |}.

End AssertionEditor.

(** ** The recording page: [Home]
    (second document of src/frontend/src/app/runs/page.tsx) *)

Module HomePage.
Import StepModel.

(** The [data] of an outbound message. *)
Inductive Payload : Type :=
  | PChat (content : string)
  | PNone.

(** The [data] of an [action] event. *)
Record ActionData : Type := mkActionData {
  a_type : string;
  a_selector : option string;
  a_value : option string;
  a_screenshot : option string;
  a_timestamp : string;
  a_assertion_config : option AssertionConfig;
}.

(** One constructor per [socket.on(type, handler)] of [initSession]. *)
Inductive Event : Type :=
  | EvChat (role content : string)
  | EvStatus (status : string)
  | EvScreenshot (image : string)
  | EvAction (a : ActionData)
  | EvComplete (success : bool) (message : string)
  | EvError (message : string).

(** A step as [handleSaveTest] sends it. *)
Record NewTestStep : Type := mkNewTestStep {
  n_type : string;
  n_selector : option string;
  n_value : option string;
  order_index : nat;
  n_assertion_config : option AssertionConfig;
}.

(** The argument of [testsApi.create]. *)
Record TestCreate : Type := mkTestCreate {
  c_name : string;
  c_target_url : string;
  c_steps : list NewTestStep;
}.

(** The three stores, the React state of [Home], and what the page has
    sent out.  [ws] tells whether the session socket has been stored;
    [drag] holds what the listeners of [handleRightResize] closed over
    ([startX] and [startWidth]) between mousedown and mouseup. *)
Record Home : Type := mkHome {
  browser : BrowserStore.BrowserState;
  chat : ChatStore.ChatState;
  timeline : TimelineStore.TimelineState;
  ws : bool;
  sent : list (string * Payload);
  created : list TestCreate;
  rightPanelWidth : Qc;
  isRightCollapsed : bool;
  assertionEditorOpen : bool;
  editingStep : option Step;
  drag : option (Qc * Qc);
}.

Definition on_browser (f : BrowserStore.BrowserState → BrowserStore.BrowserState)
    (h : Home) : Home :=
  mkHome (f (browser h)) (chat h) (timeline h) (ws h) (sent h) (created h)
    (rightPanelWidth h) (isRightCollapsed h) (assertionEditorOpen h)
    (editingStep h) (drag h).

Definition on_chat (f : ChatStore.ChatState → ChatStore.ChatState) (h : Home) : Home :=
  mkHome (browser h) (f (chat h)) (timeline h) (ws h) (sent h) (created h)
    (rightPanelWidth h) (isRightCollapsed h) (assertionEditorOpen h)
    (editingStep h) (drag h).

Definition on_timeline (f : TimelineStore.TimelineState → TimelineStore.TimelineState)
    (h : Home) : Home :=
  mkHome (browser h) (chat h) (f (timeline h)) (ws h) (sent h) (created h)
    (rightPanelWidth h) (isRightCollapsed h) (assertionEditorOpen h)
    (editingStep h) (drag h).

Definition set_ws (v : bool) (h : Home) : Home :=
  mkHome (browser h) (chat h) (timeline h) v (sent h) (created h)
    (rightPanelWidth h) (isRightCollapsed h) (assertionEditorOpen h)
    (editingStep h) (drag h).

(** [ws.send(type, data)] *)
Definition ws_send (type : string) (data : Payload) (h : Home) : Home :=
  mkHome (browser h) (chat h) (timeline h) (ws h) (sent h ++ [(type, data)])
    (created h) (rightPanelWidth h) (isRightCollapsed h) (assertionEditorOpen h)
    (editingStep h) (drag h).

(** [testsApi.create(payload)] *)
Definition api_create (c : TestCreate) (h : Home) : Home :=
  mkHome (browser h) (chat h) (timeline h) (ws h) (sent h) (created h ++ [c])
    (rightPanelWidth h) (isRightCollapsed h) (assertionEditorOpen h)
    (editingStep h) (drag h).

Definition set_rightPanelWidth (v : Qc) (h : Home) : Home :=
  mkHome (browser h) (chat h) (timeline h) (ws h) (sent h) (created h)
    v (isRightCollapsed h) (assertionEditorOpen h) (editingStep h) (drag h).

Definition set_isRightCollapsed (v : bool) (h : Home) : Home :=
  mkHome (browser h) (chat h) (timeline h) (ws h) (sent h) (created h)
    (rightPanelWidth h) v (assertionEditorOpen h) (editingStep h) (drag h).

Definition set_assertionEditorOpen (v : bool) (h : Home) : Home :=
  mkHome (browser h) (chat h) (timeline h) (ws h) (sent h) (created h)
    (rightPanelWidth h) (isRightCollapsed h) v (editingStep h) (drag h).

Definition set_editingStep (v : option Step) (h : Home) : Home :=
  mkHome (browser h) (chat h) (timeline h) (ws h) (sent h) (created h)
    (rightPanelWidth h) (isRightCollapsed h) (assertionEditorOpen h) v (drag h).

Definition set_drag (v : option (Qc * Qc)) (h : Home) : Home :=
  mkHome (browser h) (chat h) (timeline h) (ws h) (sent h) (created h)
    (rightPanelWidth h) (isRightCollapsed h) (assertionEditorOpen h)
    (editingStep h) v.

(** The page as it mounts: the stores in their initial state,
    [useState(320)] for the panel width. *)
Definition mounted : Home :=
  mkHome BrowserStore.initial ChatStore.initial TimelineStore.initial false [] []
    (Q2Qc 320) false false None None.

(** What [initSession] meets: [createSession] rejects, [connect] rejects
    after the session was created, or both resolve. *)
Inductive SessionOutcome : Type :=
  | NoSession
  | NoConnection (session_id : string)
  | Connected (session_id : string).

(** [initSession], including the registration of the handlers. *)
Definition initSession (o : SessionOutcome) (h : Home) : Home :=
  match o with
  | NoSession => h
  | NoConnection sid => on_chat (ChatStore.setSessionId sid) h
  | Connected sid => set_ws true (on_chat (ChatStore.setSessionId sid) h)
  end.

(** *** Handlers of the session socket *)

Definition handle_chat (uuid now role content : string) (h : Home) : Home :=
  if decide (role = "assistant")
  then on_chat (ChatStore.addMessage uuid now ChatStore.Assistant content)
         (on_chat (ChatStore.setTyping false) h)
  else h.

Definition handle_status (status : string) (h : Home) : Home :=
  if decide (status = "thinking") then on_chat (ChatStore.setTyping true) h
  else if decide (status = "starting_browser")
       then on_browser (BrowserStore.setStatus Types.BsStarting) h
  else if decide (status = "running")
       then on_browser (BrowserStore.setStatus Types.BsRunning) h
  else if decide (status = "stopped")
       then on_browser (BrowserStore.setStatus Types.BsStopped) h
  else h.

Definition handle_screenshot (image : string) (h : Home) : Home :=
  on_browser (BrowserStore.setScreenshot image) h.

(** [value] used as a condition. *)
Definition truthy_value (v : option string) : option string :=
  match v with
  | Some s => if AssertionEditor.truthy s then Some s else None
  | None => None
  end.

Definition handle_action (uuid : string) (a : ActionData) (h : Home) : Home :=
  let h := on_timeline
             (TimelineStore.addStep uuid
                (mkStep EmptyString (a_type a) (a_selector a) (a_value a)
                   (a_screenshot a) (a_timestamp a) (a_assertion_config a) None)) h in
  if decide (a_type a = "navigate")
  then match truthy_value (a_value a) with
       | Some url => on_browser (BrowserStore.setCurrentUrl url) h
       | None => h
       end
  else h.

Definition handle_complete (uuid now : string) (success : bool) (message : string)
    (h : Home) : Home :=
  let h := on_browser (BrowserStore.setStatus Types.BsStopped) h in
  on_chat (ChatStore.addMessage uuid now ChatStore.Assistant
             (if success then String.append "Automation complete: " message
              else String.append "Automation failed: " message)) h.

Definition handle_error (uuid now : string) (message : string) (h : Home) : Home :=
  let h := on_browser (BrowserStore.setStatus Types.BsError) h in
  let h := on_chat (ChatStore.setTyping false) h in
  on_chat (ChatStore.addMessage uuid now ChatStore.Assistant
             (String.append "Error: " message)) h.

Definition handle_event (uuid now : string) (ev : Event) (h : Home) : Home :=
  match ev with
  | EvChat role content => handle_chat uuid now role content h
  | EvStatus status => handle_status status h
  | EvScreenshot image => handle_screenshot image h
  | EvAction a => handle_action uuid a h
  | EvComplete success message => handle_complete uuid now success message h
  | EvError message => handle_error uuid now message h
  end.

(** An event reaches its handler once the session socket is connected. *)
Definition deliver (uuid now : string) (ev : Event) (h : Home) : Home :=
  if ws h then handle_event uuid now ev h else h.

(** *** Callbacks *)

Definition handleSendMessage (uuid now content : string) (h : Home) : Home :=
  if ws h
  then ws_send "chat" (PChat content)
         (on_chat (ChatStore.setTyping true)
            (on_chat (ChatStore.addMessage uuid now ChatStore.User content) h))
  else h.

Definition handleStartAutomation (h : Home) : Home :=
  if ws h then on_browser (BrowserStore.setStatus Types.BsStarting) h else h.

Definition handleStopAutomation (h : Home) : Home :=
  if ws h
  then on_browser (BrowserStore.setStatus Types.BsStopped)
         (ws_send "stop_automation" PNone h)
  else h.

(** The [validStepTypes] of [handleSaveTest]. *)
Definition validStepTypes : list string :=
  ["navigate"; "click"; "fill"; "wait"; "scroll"; "hover";
   "assert_visible"; "assert_hidden"; "assert_text";
   "assert_value"; "assert_attribute"; "assert_url"; "assert_api"].

Definition actionableSteps (l : list Step) : list Step :=
  filter (λ s, type s ∈ validStepTypes) l.

(** [firstNavigate?.value || 'https://example.com'] *)
Definition targetUrl (l : list Step) : string :=
  match find (λ s, bool_decide (type s = "navigate")) l with
  | Some s => default "https://example.com" (truthy_value (value s))
  | None => "https://example.com"
  end.

Definition to_new_step (i : nat) (s : Step) : NewTestStep :=
  {| n_type := type s; n_selector := selector s; n_value := value s;
     order_index := i; n_assertion_config := assertion_config s |}.

(** [handleSaveTest].  [today] is [new Date().toLocaleDateString()],
    [ok] tells whether [testsApi.create] resolves. *)
Definition handleSaveTest (uuid now today : string) (ok : bool) (h : Home) : Home :=
  let l := TimelineStore.steps (timeline h) in
  match l with
  | [] => h
  | _ =>
      let h := api_create
                 {| c_name := String.append "Test " today;
                    c_target_url := targetUrl l;
                    c_steps := imap to_new_step (actionableSteps l) |} h in
      if ok
      then on_chat (ChatStore.addMessage uuid now ChatStore.Assistant
             "Test saved successfully! You can find it in your test library.") h
      else h
  end.

Definition handleAddAssertion (h : Home) : Home :=
  set_assertionEditorOpen true (set_editingStep None h).

Definition handleEditStep (step : Step) (h : Home) : Home :=
  if isAssertion step
  then set_assertionEditorOpen true (set_editingStep (Some step) h)
  else h.

(** [handleSaveAssertion], on the object the editor builds. *)
Definition handleSaveAssertion (uuid now : string) (d : AssertionEditor.Draft)
    (h : Home) : Home :=
  match truthy_value (AssertionEditor.d_id d) with
  | Some i =>
      on_timeline (TimelineStore.updateStep i (AssertionEditor.draft_patch d i)) h
  | None =>
      on_timeline
        (TimelineStore.addStep uuid
           (mkStep EmptyString (AssertionEditor.d_type d)
              (AssertionEditor.d_selector d) None None
              (AssertionEditor.or_else (AssertionEditor.d_timestamp d) now)
              (AssertionEditor.d_config d) None)) h
  end.

(** The Save button of the dialog: [handleSave] of the editor, which calls
    [onSave] and then [onOpenChange(false)].  The dialog edits
    [editingStep]; the button is there while the dialog is open and is
    disabled while [canSave] is false. *)
Definition editorSave (uuid now : string) (f : AssertionEditor.Form)
    (parsed : option Z) (h : Home) : Home :=
  if assertionEditorOpen h && AssertionEditor.canSave f
  then set_assertionEditorOpen false
         (handleSaveAssertion uuid now
            (AssertionEditor.handleSave (editingStep h) f parsed now) h)
  else h.

Definition Qc_max (a b : Qc) : Qc := if decide (a ≤ b)%Qc then b else a.
Definition Qc_min (a b : Qc) : Qc := if decide (a ≤ b)%Qc then a else b.

(** [Math.max(280, Math.min(450, startWidth + delta))] *)
Definition clamp_width (w : Qc) : Qc := Qc_max (Q2Qc 280) (Qc_min (Q2Qc 450) w).

(** mousedown on the resize handle, which is rendered while the panel is
    not collapsed. *)
Definition resizeStart (clientX : Qc) (h : Home) : Home :=
  if isRightCollapsed h then h
  else set_drag (Some (clientX, rightPanelWidth h)) h.

(** [handleMouseMove] *)
Definition resizeMove (clientX : Qc) (h : Home) : Home :=
  match drag h with
  | Some (startX, startWidth) =>
      set_rightPanelWidth (clamp_width (startWidth + (startX - clientX))%Qc) h
  | None => h
  end.

(** [handleMouseUp] *)
Definition resizeEnd (h : Home) : Home := set_drag None h.

(** The drag of [StepTimeline]: the sortable list is rendered only when
    there are steps, and a drag then always ends in a proper list. *)
Definition dragEnd (active : string) (over : option string) (h : Home) : Home :=
  match TimelineStore.steps (timeline h) with
  | [] => h
  | _ => match TimelineStore.handleDragEnd active over (timeline h) with
         | Some t => on_timeline (λ _, t) h
         | None => h
         end
  end.

(** *** Traces *)

Inductive Op : Type :=
  | Deliver (uuid now : string) (ev : Event)
  | SendMessage (uuid now content : string)
  | StartAutomation
  | StopAutomation
  | SaveTest (uuid now today : string) (ok : bool)
  | RunTest
  | AddAssertion
  | EditStep (step : Step)
  | EditorSave (uuid now : string) (f : AssertionEditor.Form) (parsed : option Z)
  | EditorClose
  | DragEnd (active : string) (over : option string)
  | RemoveStep (i : string)
  | SelectStep (i : string)
  | ClearSteps
  | ResizeStart (clientX : Qc)
  | ResizeMove (clientX : Qc)
  | ResizeEnd
  | Collapse (b : bool).

Definition step (op : Op) (h : Home) : Home :=
  match op with
  | Deliver uuid now ev => deliver uuid now ev h
  | SendMessage uuid now content => handleSendMessage uuid now content h
  | StartAutomation => handleStartAutomation h
  | StopAutomation => handleStopAutomation h
  | SaveTest uuid now today ok => handleSaveTest uuid now today ok h
  | RunTest => h
  | AddAssertion => handleAddAssertion h
  | EditStep s => handleEditStep s h
  | EditorSave uuid now f parsed => editorSave uuid now f parsed h
  | EditorClose => set_assertionEditorOpen false h
  | DragEnd active over => dragEnd active over h
  | RemoveStep i => on_timeline (TimelineStore.removeStep i) h
  | SelectStep i => on_timeline (TimelineStore.selectStep (Some i)) h
  | ClearSteps => on_timeline TimelineStore.clearSteps h
  | ResizeStart x => resizeStart x h
  | ResizeMove x => resizeMove x h
  | ResizeEnd => resizeEnd h
  | Collapse b => set_isRightCollapsed b h
  end.

Fixpoint run (ops : list Op) (h : Home) : Home :=
  match ops with
  | [] => h
  | op :: rest => run rest (step op h)
  end.

(** The id an operation draws from [crypto.randomUUID()] for a new step,
    if it adds one. *)
Definition new_step_id (op : Op) (h : Home) : option string :=
  match op with
  | Deliver uuid _ (EvAction _) => if ws h then Some uuid else None
  | EditorSave uuid now f parsed =>
      if assertionEditorOpen h && AssertionEditor.canSave f
      then match truthy_value (id <$> editingStep h) with
           | Some _ => None
           | None => Some uuid
           end
      else None
  | _ => None
  end.

(** Every id drawn for a new step along the trace is new to the timeline. *)
Fixpoint fresh_ids (ops : list Op) (h : Home) : Prop :=
  match ops with
  | [] => True
  | op :: rest =>
      match new_step_id op h with
      | Some uuid => uuid ∉ TimelineStore.step_ids (timeline h)
      | None => True
      end ∧ fresh_ids rest (step op h)
  end.

(** The contents of the user's messages in the chat, in order. *)
Definition user_messages (h : Home) : list string :=
  ChatStore.m_content
    <$> filter (λ m, ChatStore.m_role m = ChatStore.User) (ChatStore.messages (chat h)).


End HomePage.

(** ** The test-run page: its header buttons, and Apply All *)

Module TestRunControls.
Import TestRunPage.




(** The call [handleApproveHealing] makes for a suggestion, if it makes
    one: [healingApi.approveSuggestionForStep(testId, step.id,
    suggestion.suggested_selector)] under [if (step?.id)]. *)
Definition approve_call (tid : string) (snapshot : list StepStatus)
    (s : HealingSuggestion) : option ApiCall :=
  (λ stepId, ApiApproveSuggestionForStep tid stepId (suggested_selector s))
    <$> truthy_id (js_index snapshot (step_index s)).

End TestRunControls.

(** ** [HealingPanel] (src/unnamed/part_007) and the Healing tab of the
    test-run page *)

Module HealingPanel.
Import TestRunPage.

(** [suggestions.filter((s) => !s.auto_approved)] *)
Definition pendingSuggestions (l : list HealingSuggestion) : list HealingSuggestion :=
  filter (λ s, auto_approved s = false) l.

(** [suggestions.filter((s) => s.auto_approved)] *)
Definition autoApplied (l : list HealingSuggestion) : list HealingSuggestion :=
  filter (λ s, auto_approved s = true) l.


(** The header text, as the number and the word after it:
    [pendingSuggestions.length > 0 ? `${pendingSuggestions.length} pending`
                                   : `${autoApplied.length} applied`] *)
Definition header (l : list HealingSuggestion) : nat * string :=
  if decide (0 < length (pendingSuggestions l))%nat
  then (length (pendingSuggestions l), "pending")
  else (length (autoApplied l), "applied").




End HealingPanel.

(** ** The settings page: [updateSetting] (src/unnamed/part_010) *)

Module SettingsPage.
Import TestRunPage.

(** The [(key, value)] pairs the page calls [updateSetting] with. *)
Inductive Update : Type :=
  | SetEnabled (v : bool)
  | SetAutoApprove (v : bool)
  | SetThreshold (v : Qc)
  | SetMode (v : string)
  | SetProvider (v : string).

(** [{ ...settings, [key]: value }] *)
Definition apply_update (u : Update) (s : HealingSettings) : HealingSettings :=
  match u with
  | SetEnabled v =>
      mkHealingSettings v (auto_approve s) (auto_approve_threshold s) (mode s) (provider s)
  | SetAutoApprove v =>
      mkHealingSettings (enabled s) v (auto_approve_threshold s) (mode s) (provider s)
  | SetThreshold v =>
      mkHealingSettings (enabled s) (auto_approve s) v (mode s) (provider s)
  | SetMode v =>
      mkHealingSettings (enabled s) (auto_approve s) (auto_approve_threshold s) v (provider s)
  | SetProvider v =>
      mkHealingSettings (enabled s) (auto_approve s) (auto_approve_threshold s) (mode s) v
  end.

(** [interface LLMProvider], as far as the page reads it. *)
Record LLMProvider : Type := mkLLMProvider {
  lp_id : string;
  available : bool;
}.

(** The [useState] fields [updateSetting] touches, and the arguments of the
    [settingsApi.updateHealingSettings] calls made so far. *)
Record State : Type := mkState {
  settings : option HealingSettings;
  saving : bool;
  saved : bool;
  updates : list Update;
}.

(** [updateSetting] up to its [await]: the state it leaves, and the
    [settings] its closure holds ([None] when it returned at once). *)
Definition updateSetting_begin (u : Update) (st : State)
    : State * option HealingSettings :=
  match settings st with
  | None => (st, None)
  | Some s =>
      ({| settings := Some (apply_update u s); saving := true; saved := false;
          updates := updates st ++ [u] |}, Some s)
  end.

(** [updateSetting] after its [await]: [ok] tells whether the call
    resolved, [closure] is the [settings] the callback was created with. *)
Definition updateSetting_end (closure : HealingSettings) (ok : bool) (st : State)
    : State :=
  if ok
  then {| settings := settings st; saving := false; saved := true;
          updates := updates st |}
  else {| settings := Some closure; saving := false; saved := saved st;
          updates := updates st |}.

(** [updateSetting], run without anything in between. *)
Definition updateSetting (u : Update) (ok : bool) (st : State) : State :=
  match updateSetting_begin u st with
  | (st', Some closure) => updateSetting_end closure ok st'
  | (st', None) => st'
  end.

(** [setTimeout(() => setSaved(false), 2000)] firing. *)
Definition savedTimeout (st : State) : State :=
  {| settings := settings st; saving := saving st; saved := false;
     updates := updates st |}.

(** The slider: [<input type="range" min="50" max="99">] with
    [parseInt(e.target.value) / 100]; [k] is the position of the slider. *)
Definition sliderUpdate (k : Z) : Update := SetThreshold (Q2Qc (Qmake k 100)).

(** The position a range input with [min="50" max="99"] can report. *)
Definition sliderPosition (k : Z) : Prop := (50 ≤ k ≤ 99)%Z.

(** The toggles: [updateSetting('enabled', !settings.enabled)] and
    [updateSetting('auto_approve', !settings.auto_approve)].  They are
    rendered once [settings] is there. *)
Definition toggleEnabled (ok : bool) (st : State) : State :=
  match settings st with
  | Some s => updateSetting (SetEnabled (negb (enabled s))) ok st
  | None => st
  end.

Definition toggleAutoApprove (ok : bool) (st : State) : State :=
  match settings st with
  | Some s => updateSetting (SetAutoApprove (negb (auto_approve s))) ok st
  | None => st
  end.

(** [() => provider.available && updateSetting('provider', provider.id)] *)
Definition selectProvider (p : LLMProvider) (ok : bool) (st : State) : State :=
  if available p then updateSetting (SetProvider (lp_id p)) ok st else st.

End SettingsPage.

(** ** The browser store, field by field *)

Module BrowserStoreFields.
Import Types BrowserStore.

(** What an action writes to each field, if it writes it. *)
Definition writes_status (a : Action) : option BrowserStatus :=
  match a with
  | SetStatus st => Some st
  | Reset => Some BsIdle
  | _ => None
  end.

Definition writes_screenshot (a : Action) : option (option string) :=
  match a with
  | SetScreenshot img => Some (Some img)
  | Reset => Some None
  | _ => None
  end.

Definition writes_currentUrl (a : Action) : option (option string) :=
  match a with
  | SetCurrentUrl url => Some (Some url)
  | Reset => Some None
  | _ => None
  end.

End BrowserStoreFields.

(** ** The members of the step types (src/unnamed/part_001) *)

Module StepTypes.
Import StepModel.




End StepTypes.

(** * Properties *)

(** ** The browser store *)

Module BrowserStoreFacts.
Import Types BrowserStore.

Lemma reset_constant (s : BrowserState) : reset s = initial.
Proof. reflexivity. Qed.

Lemma replay_snoc (acts : list Action) (a : Action) (s : BrowserState) :
  replay (acts ++ [a]) s = dispatch (replay acts s) a.
Proof. unfold replay. by rewrite foldl_app. Qed.

(** C10: [reset] restores exactly the initial store state (status idle,
    screenshot null, currentUrl null) after any finite sequence of store
    actions, from any state; hence a trace that ends in [reset] ends in the
    initial state, [reset] is idempotent, and the state after [reset] does
    not depend on the history. *)
Theorem reset_restores_initial (acts : list Action) (s s' : BrowserState) :
  reset (replay acts initial) = initial
  ∧ status (reset (replay acts s)) = BsIdle
  ∧ screenshot (reset (replay acts s)) = None
  ∧ currentUrl (reset (replay acts s)) = None
  ∧ replay (acts ++ [Reset]) s = initial
  ∧ reset (reset s) = reset s
  ∧ reset (replay acts s) = reset s'.
Proof.
  repeat split; try apply reset_constant.
  rewrite replay_snoc. apply reset_constant.
Qed.

End BrowserStoreFacts.

(** ** The message types *)

Module MessageTypeFacts.
Import Types TestRunPage Spec.

(** Membership of a string in a literal list, once unfolded to a
    disjunction of equations: split the hypotheses, then pick the disjunct. *)
Ltac pick_member := repeat first [by left | right].
Ltac string_members :=
  rewrite ?elem_of_cons, ?elem_of_nil;
  repeat match goal with
         | |- _ ↔ _ => split
         | |- _ → _ => intro
         | H : _ ∧ _ |- _ => destruct H
         | H : _ ∨ _ |- _ => destruct H
         | H : False |- _ => destruct H
         | H : ?t = _ |- _ => is_var t; subst t
         | |- _ ∧ _ => split
         end;
  try done; try pick_member.

Lemma event_type_registered (ev : Event) : event_type ev ∈ registered_types.
Proof. destruct ev; unfold registered_types; simpl; set_solver. Qed.

Lemma registered_type_has_event (t : string) :
  t ∈ registered_types → ∃ ev, event_type ev = t.
Proof.
  unfold registered_types. rewrite !elem_of_cons, elem_of_nil.
  intros [->|[->|[->|[->|[->|[->|[->|[]]]]]]]].
  - by exists (EvScreenshot EmptyString).
  - by exists (EvStep 0 Pending None).
  - by exists (EvMetrics (mkPerformanceMetrics 0 EmptyString 0 0 0 0 0 0
                            (mkRatings Good Good Good Good))).
  - by exists (EvHealing (mkHealingSuggestion 0 EmptyString EmptyString 0
                            EmptyString None false None)).
  - by exists (EvApprovalRequest (mkApprovalRequest 0 EmptyString EmptyString 0 None)).
  - by exists (EvComplete true EmptyString).
  - by exists (EvError EmptyString).
Qed.

(** C4, as stated, fails: [step] is one of the eight kinds but is not a
    member of the declared [WebSocketMessageType]. *)
Lemma step_kind_not_declared :
  ¬ (∀ t : string, t ∈ spec_event_kinds → t ∈ declared_message_types).
Proof.
  intros H. specialize (H "step").
  assert (Hin : "step" ∈ spec_event_kinds) by (unfold spec_event_kinds; set_solver).
  apply H in Hin. revert Hin.
  unfold declared_message_types, WebSocketMessageType_members. simpl.
  string_members.
Qed.

(** C4, amended: the types handled on the per-run stream are exactly the
    seven kinds screenshot, step, metrics, healing, approval_request,
    complete and error, that is the eight listed kinds without status; the
    declared [WebSocketMessageType] is exactly chat, status, screenshot,
    action, complete and error, every member of the union being one of
    them; so of the eight kinds only status, screenshot, complete and error
    are declared. *)
Theorem message_type_sets :
  (∀ ev : Event, event_type ev ∈ registered_types)
  ∧ (∀ t : string, t ∈ registered_types ↔ ∃ ev, event_type ev = t)
  ∧ (∀ t : string, t ∈ registered_types ↔ t ∈ spec_event_kinds ∧ t ≠ "status")
  ∧ (∀ m : WebSocketMessageType, ws_type_name m ∈ declared_message_types)
  ∧ declared_message_types
      = ["chat"; "status"; "screenshot"; "action"; "complete"; "error"]
  ∧ (∀ t : string, t ∈ spec_event_kinds ∧ t ∈ declared_message_types
        ↔ t ∈ ["status"; "screenshot"; "complete"; "error"]).
Proof.
  split; [apply event_type_registered|].
  split.
  { intros t. split; [apply registered_type_has_event|].
    intros [ev <-]. apply event_type_registered. }
  split.
  { intros t. unfold registered_types, spec_event_kinds. string_members. }
  split.
  { intros m. unfold declared_message_types, WebSocketMessageType_members.
    destruct m; simpl; set_solver. }
  split; [reflexivity|].
  intros t. unfold spec_event_kinds, declared_message_types,
    WebSocketMessageType_members. simpl.
  string_members.
Qed.

End MessageTypeFacts.

(** ** The test-run page *)

Module TestRunPageFacts.
Import TestRunPage Spec.

(** *** Step events *)

Lemma on_step_stepStatuses (i : Z) (st : StepState) (err : option string) (w : World) :
  stepStatuses (page (on_step i st err w))
  = step_update i st err <$> stepStatuses (page w).
Proof. reflexivity. Qed.

Lemma step_update_other (i : Z) (st : StepState) (err : option string) (s : StepStatus) :
  ss_index s ≠ i → step_update i st err s = s.
Proof. intros H. unfold step_update. by rewrite decide_False. Qed.

Lemma step_update_same (i : Z) (st : StepState) (err : option string) (s : StepStatus) :
  ss_index s = i → step_update i st err s = with_status_error st err s.
Proof. intros H. unfold step_update. by rewrite decide_True. Qed.

Lemma step_update_no_match (i : Z) (st : StepState) (err : option string)
    (l : list StepStatus) :
  (∀ s, s ∈ l → ss_index s ≠ i) → step_update i st err <$> l = l.
Proof.
  induction l as [|s l IH]; intros H; [done|].
  rewrite fmap_cons, step_update_other, IH; [done| |].
  - intros s' Hs'. apply H. by right.
  - apply H. by left.
Qed.

(** C9: the handler of a step event with index [i] keeps the length of the
    step list, leaves every entry whose index is not [i] as it is, changes
    only [status] and [error] of an entry whose index is [i] (index, id,
    type, selector, value and original_selector stay), leaves the whole list
    as it is when no entry has index [i], and changes nothing else in the
    world. *)
Theorem step_event_frame (i : Z) (st : StepState) (err : option string) (w : World) :
  let l := stepStatuses (page w) in
  let l' := stepStatuses (page (on_step i st err w)) in
  length l' = length l
  ∧ (∀ pos s, l !! pos = Some s → ss_index s ≠ i → l' !! pos = Some s)
  ∧ (∀ pos s, l !! pos = Some s → ss_index s = i →
       ∃ s', l' !! pos = Some s'
         ∧ ss_status s' = st ∧ ss_error s' = err
         ∧ ss_index s' = ss_index s ∧ ss_id s' = ss_id s
         ∧ ss_type s' = ss_type s ∧ ss_selector s' = ss_selector s
         ∧ ss_value s' = ss_value s
         ∧ ss_original_selector s' = ss_original_selector s)
  ∧ ((∀ s, s ∈ l → ss_index s ≠ i) → on_step i st err w = w)
  ∧ on_step i st err w = on_page (set_stepStatuses l') w.
Proof.
  intros l l'. subst l l'. rewrite on_step_stepStatuses.
  split; [apply length_fmap|].
  split.
  { intros pos s Hs Hne. rewrite list_lookup_fmap, Hs. simpl.
    by rewrite step_update_other. }
  split.
  { intros pos s Hs Heq. exists (with_status_error st err s).
    rewrite list_lookup_fmap, Hs. simpl. by rewrite step_update_same. }
  split; [|reflexivity].
  intros Hno. unfold on_step, on_page.
  rewrite step_update_no_match by done.
  by destruct w as [[] ? ?].
Qed.

(** *** Sockets *)






(** C9 at work on the scenario: a failure of step 1 touches the second
    entry only, and an event for an index no step has changes nothing. *)
Lemma step_event_frame_witness :
  ss_status <$> stepStatuses (page (on_step 1 Failed (Some "timeout") Scenario.in_flight))
    = [Passed; Failed; Pending]
  ∧ on_step 7 Failed None Scenario.in_flight = Scenario.in_flight.
Proof.
  destruct (step_event_frame 7 Failed None Scenario.in_flight) as (_ & _ & _ & Hno & _).
  split; [reflexivity|].
  apply Hno. intros s [pos Hs]%list_elem_of_lookup.
  destruct pos as [|[|[|pos]]]; vm_compute in Hs;
    [injection Hs as <-; discriminate ..|discriminate].
Defined.

(** *** Bookkeeping of sockets and approvals along a trace *)

Lemma approveHealing_frame (snapshot : list StepStatus)
    (suggestion : HealingSuggestion) (ok : bool) (w : World) :
  sockets (approveHealing snapshot suggestion ok w) = sockets w
  ∧ ws (page (approveHealing snapshot suggestion ok w)) = ws (page w)
  ∧ pendingApproval (page (approveHealing snapshot suggestion ok w))
    = pendingApproval (page w).
Proof.
  unfold approveHealing. destruct (truthy_id _); [destruct ok|]; done.
Qed.

Lemma approve_each_frame (snapshot : list StepStatus)
    (pending : list HealingSuggestion) (oks : list bool) (w : World) :
  sockets (approve_each snapshot pending oks w) = sockets w
  ∧ ws (page (approve_each snapshot pending oks w)) = ws (page w)
  ∧ pendingApproval (page (approve_each snapshot pending oks w))
    = pendingApproval (page w).
Proof.
  revert oks w. induction pending as [|s rest IH]; intros oks w; [done|].
  simpl. destruct (IH (tail oks) (approveHealing snapshot s (hd true oks) w))
    as (-> & -> & ->).
  apply approveHealing_frame.
Qed.

Lemma is_connected_app (sid : nat) (w : World) (s : Socket) :
  is_connected sid w = true →
  match (sockets w ++ [s]) !! sid with
  | Some s' => connected s'
  | None => false
  end = true.
Proof.
  unfold is_connected. destruct (sockets w !! sid) as [s0|] eqn:Hs; [|done].
  intros Hc. by rewrite (lookup_app_l_Some _ _ _ _ Hs).
Qed.

Lemma ws_connected_step (op : Op) (w : World) :
  ws_connected w → ws_connected (step op w).
Proof.
  intros Hw.
  destruct op as [ok|ok|j ev| |approved|stepId outcome|sug ok|sug|oks| | | ]; simpl.
  - unfold startRun. destruct (test (page w)); [|done].
    intros sid. destruct ok; simpl.
    + intros [= <-]. unfold is_connected. simpl.
      by rewrite lookup_app_r, Nat.sub_diag.
    + intros Hws. unfold is_connected. simpl. by apply is_connected_app, Hw.
  - unfold rerun, startRun. simpl. destruct (test (page w)); [|done].
    intros sid. destruct ok; simpl.
    + intros [= <-]. unfold is_connected. simpl.
      by rewrite lookup_app_r, Nat.sub_diag.
    + intros Hws. unfold is_connected. simpl. by apply is_connected_app, Hw.
  - unfold deliver. destruct (is_connected j w); [|done].
    destruct ev as [image|i st err|m|h|r|success message|message]; try done.
    simpl. unfold on_healing. by destruct (auto_approved h).
  - done.
  - unfold handleApprovalResponse.
    destruct (ws (page w)) as [j|] eqn:Hws; [|done].
    destruct (pendingApproval (page w)); [|done].
    intros sid. simpl. rewrite Hws. intros [= <-].
    specialize (Hw j Hws). unfold is_connected in *. simpl.
    rewrite list_lookup_alter_eq. by destruct (sockets w !! j).
  - unfold deleteStep. repeat case_match; done.
  - intros sid. unfold handleApproveHealing, is_connected.
    destruct (approveHealing_frame (stepStatuses (page w)) sug ok w) as (-> & -> & _).
    apply Hw.
  - done.
  - intros sid. unfold handleApproveAllHealing, is_connected.
    destruct (approve_each_frame (stepStatuses (page w))
                (pendingHealing (healingSuggestions (page w))) oks w)
      as (-> & -> & _).
    apply Hw.
  - done.
  - done.
  - done.
Qed.

Lemma ws_connected_run (ops : list Op) (w : World) :
  ws_connected w → ws_connected (run ops w).
Proof.
  revert w. induction ops as [|op rest IH]; intros w Hw; [done|].
  simpl. by apply IH, ws_connected_step.
Qed.

Lemma ws_connected_loaded (tid : string) (outcome : option TestResponse) :
  ws_connected (loadTest outcome (mount tid)).
Proof.
  intros sid. unfold loadTest. destruct outcome as [data|]; [|done].
  simpl. by destruct (tr_latest_version data).
Qed.

Lemma sum_alter_same (f : Socket → nat) (g : Socket → Socket) (i : nat)
    (l : list Socket) :
  (∀ s, f (g s) = f s) → sum_list_with f (alter g i l) = sum_list_with f l.
Proof.
  intros Hg. revert i. induction l as [|s l IH]; intros [|i]; simpl; try done.
  - by rewrite Hg.
  - f_equal. exact (IH i).
Qed.

Lemma sum_alter_send (type : string) (data : Payload) (i : nat) (l : list Socket) :
  (sum_list_with (λ s, length (sent s)) (alter (send type data) i l)
   ≤ S (sum_list_with (λ s, length (sent s)) l))%nat.
Proof.
  revert i. induction l as [|s l IH]; intros [|i]; simpl; try lia.
  - rewrite length_app. simpl. lia.
  - specialize (IH i).
    change (alter (send type data) i l) with (list_alter (send type data) i l) in IH.
    lia.
Qed.

Lemma sent_total_disconnect (sid : nat) (w : World) :
  sent_total (on_socket sid disconnect w) = sent_total w.
Proof. unfold sent_total, on_socket. simpl. by apply sum_alter_same. Qed.

Lemma sent_total_startRun (ok : bool) (w : World) :
  sent_total (startRun ok w) = sent_total w
  ∧ pending_count (startRun ok w) = pending_count w.
Proof.
  unfold startRun. destruct (test (page w)); [|done].
  unfold sent_total, pending_count.
  destruct ok; simpl; rewrite sum_list_with_app; simpl; split; (lia || done).
Qed.

(** Sends plus pending requests never grow, except by one when an approval
    request is processed. *)
Lemma approvals_step (op : Op) (w : World) :
  (sent_total (step op w) + pending_count (step op w)
   ≤ sent_total w + pending_count w + requests_processed [op] w)%nat.
Proof.
  destruct op as [ok|ok|j ev| |approved|stepId outcome|sug ok|sug|oks| | | ];
    unfold requests_processed; simpl; try lia.
  - destruct (sent_total_startRun ok w) as (-> & ->). lia.
  - unfold rerun.
    destruct (sent_total_startRun ok (on_page (set_runStatus RunIdle) w))
      as (-> & ->).
    unfold sent_total, pending_count. simpl. lia.
  - unfold deliver. destruct (is_connected j w); [|simpl; lia].
    rewrite filter_cons. unfold sent_total, pending_count.
    destruct ev as [image|i st err|m|h|r|success message|message]; simpl;
      try lia.
    + unfold on_healing. destruct (auto_approved h); simpl; lia.
    + destruct success; simpl; rewrite sum_alter_same by done; lia.
    + rewrite sum_alter_same by done. lia.
  - unfold stopRun, sent_total, pending_count.
    destruct (ws (page w)); simpl; [rewrite sum_alter_same by done|]; lia.
  - unfold handleApprovalResponse, sent_total, pending_count.
    destruct (ws (page w)) as [sid|]; [|lia].
    destruct (pendingApproval (page w)) eqn:Hp; simpl; [|rewrite Hp; lia].
    pose proof (sum_alter_send "approval_response" (PApproved approved) sid (sockets w)).
    lia.
  - unfold deleteStep, sent_total, pending_count.
    destruct (test (page w)); [|lia].
    destruct (runStatus (page w)); try lia;
      (destruct outcome as [| |data]; simpl; try lia;
         destruct (tr_latest_version data); simpl; lia).
  - unfold handleApproveHealing, sent_total, pending_count.
    destruct (approveHealing_frame (stepStatuses (page w)) sug ok w) as (-> & _ & ->).
    lia.
  - unfold handleRejectHealing, sent_total, pending_count. simpl. lia.
  - unfold handleApproveAllHealing, sent_total, pending_count.
    destruct (approve_each_frame (stepStatuses (page w))
                (pendingHealing (healingSuggestions (page w))) oks w)
      as (-> & _ & ->).
    lia.
  - unfold selectSteps, sent_total, pending_count. simpl. lia.
  - unfold selectMetrics, sent_total, pending_count. simpl. lia.
  - unfold selectHealing, sent_total, pending_count. simpl. lia.
Qed.

Lemma requests_processed_cons (op : Op) (rest : list Op) (w : World) :
  requests_processed (op :: rest) w
  = (requests_processed [op] w + requests_processed rest (step op w))%nat.
Proof.
  unfold requests_processed. destruct op; try done. simpl.
  destruct (is_connected sid w); [|done].
  rewrite !filter_cons. case_decide; simpl; lia.
Qed.

Lemma approvals_run (ops : list Op) (w : World) :
  (sent_total (run ops w) + pending_count (run ops w)
   ≤ sent_total w + pending_count w + requests_processed ops w)%nat.
Proof.
  revert w. induction ops as [|op rest IH]; intros w; [simpl; lia|].
  rewrite requests_processed_cons. simpl.
  pose proof (IH (step op w)). pose proof (approvals_step op w). lia.
Qed.

(** *** Stopping a run *)




(** *** Answering an approval request *)

(** C5: [handleApprovalResponse] does nothing at all when there is no
    pending approval request or no socket; when both are there it makes
    exactly one [send] call, an [approval_response] carrying the decision,
    on the socket [ws] points to, touches no other socket, and clears the
    pending request and nothing else; so a second invocation right after
    sends nothing: the request is answered at most once.  On a page that
    has mounted and gone through any trace, the socket [ws] points to exists
    and is connected, and the messages sent in all never outnumber the
    approval requests processed. *)
Theorem approval_response_only_when_pending (approved : bool) (w : World) :
  let w' := handleApprovalResponse approved w in
  (ws (page w) = None ∨ pendingApproval (page w) = None → w' = w)
  ∧ (∀ sid r, ws (page w) = Some sid → pendingApproval (page w) = Some r →
       sockets w' !! sid
         = send "approval_response" (PApproved approved) <$> sockets w !! sid
       ∧ (∀ j, j ≠ sid → sockets w' !! j = sockets w !! j)
       ∧ page w' = set_pendingApproval None (page w)
       ∧ api_calls w' = api_calls w)
  ∧ (∀ again : bool, handleApprovalResponse again w' = w')
  ∧ (∀ tid outcome ops sid,
       ws (page (run ops (loadTest outcome (mount tid)))) = Some sid →
       is_connected sid (run ops (loadTest outcome (mount tid))) = true)
  ∧ (∀ tid outcome ops,
       (sent_total (run ops (loadTest outcome (mount tid)))
        ≤ requests_processed ops (loadTest outcome (mount tid)))%nat).
Proof.
  intros w'. subst w'.
  assert (Htrace :
    (∀ tid outcome ops sid,
       ws (page (run ops (loadTest outcome (mount tid)))) = Some sid →
       is_connected sid (run ops (loadTest outcome (mount tid))) = true)
    ∧ (∀ tid outcome ops,
       (sent_total (run ops (loadTest outcome (mount tid)))
        ≤ requests_processed ops (loadTest outcome (mount tid)))%nat)).
  { split.
    - intros tid outcome ops. apply ws_connected_run, ws_connected_loaded.
    - intros tid outcome ops.
      pose proof (approvals_run ops (loadTest outcome (mount tid))) as H.
      assert (H0 : sent_total (loadTest outcome (mount tid)) = 0%nat
                   ∧ pending_count (loadTest outcome (mount tid)) = 0%nat).
      { unfold loadTest. destruct outcome as [data|]; [|done].
        simpl. by destruct (tr_latest_version data). }
      destruct H0 as [H1 H2]. rewrite H1, H2 in H. lia. }
  split; [|split; [|split; [|exact Htrace]]]; clear Htrace;
    unfold handleApprovalResponse.
  - intros [H|H]; rewrite H; [done|]. by destruct (ws (page w)).
  - intros sid r Hws Hp. rewrite Hws, Hp. simpl.
    split; [apply list_lookup_alter_eq|].
    split; [|done]. intros j Hj. by apply list_lookup_alter_ne.
  - intros again.
    destruct (ws (page w)) as [sid|] eqn:Hws; [|by rewrite Hws].
    destruct (pendingApproval (page w)) eqn:Hp; simpl.
    + by rewrite Hws.
    + by rewrite Hws, Hp.
Qed.

(** C5 at work: an approval request arrives during the scenario's run and
    is approved; one message goes out and the request is gone. *)
Lemma approval_response_witness :
  let w := deliver 0 (EvApprovalRequest Scenario.approval_for_step_2) Scenario.in_flight in
  handleApprovalResponse true Scenario.in_flight = Scenario.in_flight
  ∧ sockets (handleApprovalResponse true w) !! 0
      = Some {| connected := true; sent := [("approval_response", PApproved true)] |}
  ∧ pendingApproval (page (handleApprovalResponse true w)) = None.
Proof.
  intros w. split.
  - destruct (approval_response_only_when_pending true Scenario.in_flight) as (H & _).
    apply H. by right.
  - destruct (approval_response_only_when_pending true w) as (_ & H & _ & _ & _).
    destruct (H 0 Scenario.approval_for_step_2 eq_refl eq_refl) as (Hs & _ & Hp & _).
    split; [rewrite Hs; reflexivity | rewrite Hp; reflexivity].
Defined.

(** *** Metrics events *)


Lemma same_but_metrics_set (ms : list PerformanceMetrics) (w : World) :
  same_but_metrics (on_page (set_metrics ms) w) w.
Proof. reflexivity. Qed.















(** *** The shape of the step list *)














Lemma to_step_statuses_indexed (steps : list TestStep) :
  indexed (to_step_statuses steps).
Proof.
  intros pos s. unfold to_step_statuses. rewrite list_lookup_imap.
  destruct (steps !! pos); [|done]. by intros [= <-].
Qed.





(** *** The step list during a run *)





(** *** Writing a repair back to a step *)







(** *** The auto-approved flag *)








(** *** Terminal events *)



Lemma closed_call_api (sid : nat) (c : ApiCall) (w : World) :
  closed sid w → closed sid (call_api c w).
Proof. done. Qed.

















End TestRunPageFacts.

(** ** The timeline store *)

Module TimelineStoreFacts.
Import StepModel TimelineStore.

(** *** [splice] *)

Lemma splice_start_le (start : Z) (len : nat) : (splice_start start len ≤ len)%nat.
Proof. unfold splice_start. case_decide; lia. Qed.

Lemma splice_start_nat (i len : nat) :
  (i ≤ len)%nat → splice_start (Z.of_nat i) len = i.
Proof. intros H. unfold splice_start. case_decide; lia. Qed.

Lemma splice_start_neg (start : Z) (len : nat) :
  (start < 0)%Z →
  splice_start start len = splice_start (Z.max (Z.of_nat len + start) 0) len.
Proof. intros H. unfold splice_start. repeat case_decide; lia. Qed.

Lemma splice_start_full (start : Z) (len : nat) :
  splice_start start len = len ↔ len = 0%nat ∨ (Z.of_nat len ≤ start)%Z.
Proof. unfold splice_start. case_decide; lia. Qed.

Lemma all_defined_fmap {A : Type} (l : list A) : all_defined (Some <$> l) = Some l.
Proof.
  induction l as [|x l IH]; [done|]. rewrite fmap_cons.
  change (all_defined (Some x :: (Some <$> l)))
    with (match all_defined (Some <$> l) with
          | Some xs => Some (x :: xs)
          | None => None
          end).
  by rewrite IH.
Qed.

Lemma all_defined_hole {A : Type} (l1 l2 : list (option A)) :
  all_defined (l1 ++ None :: l2) = None.
Proof.
  induction l1 as [|[x|] l1 IH]; simpl; [done| |done]. by rewrite IH.
Qed.

(** [x] put at position [j] of [r]. *)
Lemma insert_at_lookup {A : Type} (r : list A) (j : nat) (x : A) :
  (j ≤ length r)%nat → (take j r ++ x :: drop j r) !! j = Some x.
Proof.
  intros H. rewrite lookup_app_r by (rewrite length_take; lia).
  rewrite length_take, Nat.min_l by done. by rewrite Nat.sub_diag.
Qed.

Lemma insert_at_delete {A : Type} (r : list A) (j : nat) (x : A) :
  (j ≤ length r)%nat → delete j (take j r ++ x :: drop j r) = r.
Proof.
  intros H.
  assert (Hj : j = length (take j r)) by (rewrite length_take; lia).
  rewrite Hj at 1. rewrite delete_middle. apply take_drop.
Qed.

Lemma insert_at_perm {A : Type} (r : list A) (j : nat) (x : A) :
  take j r ++ x :: drop j r ≡ₚ x :: r.
Proof. rewrite <- Permutation_middle. by rewrite take_drop. Qed.

Lemma take_delete_same {A : Type} (l : list A) (i : nat) :
  take i (delete i l) = take i l.
Proof.
  revert i. induction l as [|y l IH]; intros [|i]; simpl; try done.
  f_equal. apply IH.
Qed.

Lemma drop_delete_same {A : Type} (l : list A) (i : nat) :
  drop i (delete i l) = drop (S i) l.
Proof.
  revert i. induction l as [|y l IH]; intros [|i]; simpl; done.
Qed.

(** The array [reorderSteps] builds when there is an element to move. *)
Lemma reorder_array_moves {A : Type} (fromIndex toIndex : Z) (l : list A) (x : A) :
  let i := splice_start fromIndex (length l) in
  let r := delete i l in
  let j := splice_start toIndex (length r) in
  l !! i = Some x →
  reorder_array fromIndex toIndex l = Some <$> (take j r ++ x :: drop j r).
Proof.
  intros i r j Hx. unfold reorder_array, splice_remove, splice_insert.
  fold i. rewrite Hx. fold r. rewrite length_fmap. fold j.
  by rewrite fmap_app, fmap_cons, fmap_take, fmap_drop.
Qed.

(** The array [reorderSteps] builds when there is none. *)
Lemma reorder_array_hole {A : Type} (fromIndex toIndex : Z) (l : list A) :
  let j := splice_start toIndex (length l) in
  splice_start fromIndex (length l) = length l →
  reorder_array fromIndex toIndex l
  = take j (Some <$> l) ++ None :: drop j (Some <$> l).
Proof.
  intros j Hi. unfold reorder_array, splice_remove, splice_insert.
  rewrite Hi, lookup_ge_None_2 by done.
  assert (Hd : delete (length l) l = l).
  { rewrite delete_take_drop, take_ge, drop_ge, app_nil_r by lia. done. }
  rewrite Hd, length_fmap. done.
Qed.

Lemma reorderSteps_inside (fromIndex toIndex : nat) (st : TimelineState) (x : Step) :
  steps st !! fromIndex = Some x →
  (toIndex < length (steps st))%nat →
  ∃ st',
    reorderSteps (Z.of_nat fromIndex) (Z.of_nat toIndex) st = Some st'
    ∧ steps st' !! toIndex = Some x
    ∧ delete toIndex (steps st') = delete fromIndex (steps st)
    ∧ length (steps st') = length (steps st)
    ∧ selectedStepId st' = selectedStepId st.
Proof.
  intros Hx Hto.
  pose proof (lookup_lt_Some _ _ _ Hx) as Hfrom.
  pose proof (reorder_array_moves (Z.of_nat fromIndex) (Z.of_nat toIndex) (steps st) x)
    as Harr.
  simpl in Harr. rewrite (splice_start_nat fromIndex) in Harr by lia.
  rewrite length_delete in Harr by eauto.
  rewrite (splice_start_nat toIndex) in Harr by lia.
  specialize (Harr Hx).
  set (r := delete fromIndex (steps st)) in *.
  assert (Hr : length r = (length (steps st) - 1)%nat)
    by (unfold r; rewrite length_delete; eauto).
  exists {| steps := take toIndex r ++ x :: drop toIndex r;
            selectedStepId := selectedStepId st |}.
  unfold reorderSteps. rewrite Harr, all_defined_fmap. simpl.
  split; [done|].
  split; [apply insert_at_lookup; lia|].
  split; [apply insert_at_delete; lia|].
  split; [|done].
  rewrite length_app, length_take. simpl. rewrite length_drop. lia.
Qed.

(** X3: [reorderSteps] with both indices inside the list succeeds: the
    step that was at [fromIndex] is at [toIndex] afterwards, the other steps
    keep their relative order, the result is a permutation of the same
    length, and the selection is kept. *)
Theorem reorderSteps_moves (fromIndex toIndex : nat) (st : TimelineState) (x : Step) :
  steps st !! fromIndex = Some x →
  (toIndex < length (steps st))%nat →
  ∃ st',
    reorderSteps (Z.of_nat fromIndex) (Z.of_nat toIndex) st = Some st'
    ∧ steps st' !! toIndex = Some x
    ∧ delete toIndex (steps st') = delete fromIndex (steps st)
    ∧ steps st' ≡ₚ steps st
    ∧ length (steps st') = length (steps st)
    ∧ selectedStepId st' = selectedStepId st.
Proof.
  intros Hx Hto.
  destruct (reorderSteps_inside fromIndex toIndex st x Hx Hto)
    as (st' & Hst' & Hat & Hdel & Hlen & Hsel).
  exists st'. split; [done|]. split; [done|]. split; [done|].
  split; [|by split].
  rewrite (delete_Permutation (steps st') toIndex x Hat), Hdel.
  symmetry. by apply delete_Permutation.
Qed.

Lemma reorderSteps_moves_witness :
  let a := mkStep "a" "navigate" None (Some "/") None "t0" None None in
  let b := mkStep "b" "click" (Some "#go") None None "t1" None None in
  let c := mkStep "c" "fill" (Some "#q") (Some "x") None "t2" None None in
  ∃ st', reorderSteps 0 2 (mkTimelineState [a; b; c] (Some "b")) = Some st'
         ∧ steps st' !! 2%nat = Some a.
Proof.
  intros a b c.
  destruct (reorderSteps_moves 0 2 (mkTimelineState [a; b; c] (Some "b")) a)
    as (st' & H1 & H2 & _); [reflexivity | simpl; lia |].
  exists st'. split; [exact H1 | exact H2].
Defined.

(** X4: moving a step and moving it back restores the state. *)
Theorem reorderSteps_round_trip (fromIndex toIndex : nat) (st st' : TimelineState) :
  (fromIndex < length (steps st))%nat →
  (toIndex < length (steps st))%nat →
  reorderSteps (Z.of_nat fromIndex) (Z.of_nat toIndex) st = Some st' →
  reorderSteps (Z.of_nat toIndex) (Z.of_nat fromIndex) st' = Some st.
Proof.
  intros Hfrom Hto Hmove.
  destruct (lookup_lt_is_Some_2 _ _ Hfrom) as [x Hx].
  destruct (reorderSteps_inside fromIndex toIndex st x Hx Hto)
    as (st1 & Hst1 & Hat & Hdel & Hlen & Hsel).
  rewrite Hst1 in Hmove. injection Hmove as <-.
  assert (Hfrom' : (fromIndex < length (steps st1))%nat) by lia.
  destruct (reorderSteps_inside toIndex fromIndex st1 x Hat Hfrom')
    as (st2 & Hst2 & Hat2 & Hdel2 & _ & Hsel2).
  rewrite Hst2. f_equal.
  destruct st as [l sel], st2 as [l2 sel2]. simpl in *. f_equal; [|congruence].
  rewrite Hdel in Hdel2.
  rewrite <- (take_drop_middle l2 fromIndex x Hat2),
          <- (take_drop_middle l fromIndex x Hx).
  rewrite <- (take_delete_same l2), <- (drop_delete_same l2),
          <- (take_delete_same l), <- (drop_delete_same l).
  by rewrite Hdel2.
Qed.

Lemma reorderSteps_round_trip_witness :
  let a := mkStep "a" "navigate" None (Some "/") None "t0" None None in
  let b := mkStep "b" "click" (Some "#go") None None "t1" None None in
  let c := mkStep "c" "fill" (Some "#q") (Some "x") None "t2" None None in
  let st := mkTimelineState [a; b; c] None in
  reorderSteps 1 0 (mkTimelineState [c; a; b] None) = Some (mkTimelineState [a; c; b] None)
  ∧ reorderSteps 0 1 (mkTimelineState [a; c; b] None) = Some (mkTimelineState [c; a; b] None).
Proof.
  intros a b c st.
  assert (H : reorderSteps 1 0 (mkTimelineState [c; a; b] None)
              = Some (mkTimelineState [a; c; b] None)) by reflexivity.
  split; [exact H|].
  apply (reorderSteps_round_trip 1 0 (mkTimelineState [c; a; b] None)
           (mkTimelineState [a; c; b] None)); [simpl; lia | simpl; lia | exact H].
Defined.

Lemma reorderSteps_Some_iff (fromIndex toIndex : Z) (st : TimelineState) :
  is_Some (reorderSteps fromIndex toIndex st)
  ↔ (splice_start fromIndex (length (steps st)) < length (steps st))%nat.
Proof.
  pose proof (splice_start_le fromIndex (length (steps st))) as Hle.
  unfold reorderSteps. split.
  - intros Hsome.
    destruct (decide (splice_start fromIndex (length (steps st)) = length (steps st)))
      as [Heq|]; [|lia].
    rewrite (reorder_array_hole _ _ _ Heq), all_defined_hole in Hsome.
    by destruct Hsome.
  - intros Hlt. destruct (lookup_lt_is_Some_2 _ _ Hlt) as [x Hx].
    rewrite (reorder_array_moves _ _ _ _ Hx), all_defined_fmap. eauto.
Qed.

(** X5: the edges of [reorderSteps].  It leaves [undefined] in the array
    exactly when the list is empty or [fromIndex] is at or past its end; the
    array is then one longer than before.  A negative [fromIndex] counts
    from the end (and stops at the first step).  A [toIndex] at or past the
    last position puts the step last. *)
Theorem reorderSteps_edges (fromIndex toIndex : Z) (st : TimelineState) :
  (reorderSteps fromIndex toIndex st = None
   ↔ steps st = [] ∨ (Z.of_nat (length (steps st)) ≤ fromIndex)%Z)
  ∧ (reorderSteps fromIndex toIndex st = None →
     length (reorder_array fromIndex toIndex (steps st)) = S (length (steps st))
     ∧ None ∈ reorder_array fromIndex toIndex (steps st))
  ∧ ((fromIndex < 0)%Z →
     reorderSteps fromIndex toIndex st
     = reorderSteps (Z.max (Z.of_nat (length (steps st)) + fromIndex) 0) toIndex st)
  ∧ (∀ x,
       steps st !! splice_start fromIndex (length (steps st)) = Some x →
       (Z.of_nat (length (steps st)) - 1 ≤ toIndex)%Z →
       reorderSteps fromIndex toIndex st
       = Some {| steps := delete (splice_start fromIndex (length (steps st))) (steps st)
                          ++ [x];
                 selectedStepId := selectedStepId st |}).
Proof.
  pose proof (splice_start_le fromIndex (length (steps st))) as Hle.
  assert (Hnone : reorderSteps fromIndex toIndex st = None
                  ↔ splice_start fromIndex (length (steps st)) = length (steps st)).
  { rewrite eq_None_not_Some, reorderSteps_Some_iff. lia. }
  split.
  { rewrite Hnone, splice_start_full. by rewrite length_zero_iff_nil. }
  split.
  { intros Heq%Hnone. rewrite (reorder_array_hole _ _ _ Heq).
    split.
    - rewrite length_app, length_take. simpl. rewrite length_drop, length_fmap.
      pose proof (splice_start_le toIndex (length (steps st))). lia.
    - apply elem_of_app. right. by left. }
  split.
  { intros Hneg. unfold reorderSteps, reorder_array, splice_remove.
    by rewrite <- (splice_start_neg fromIndex) by done. }
  intros x Hx Hto.
  unfold reorderSteps. rewrite (reorder_array_moves _ _ _ _ Hx), all_defined_fmap.
  do 2 f_equal.
  set (r := delete _ (steps st)).
  assert (Hr : length r = (length (steps st) - 1)%nat)
    by (unfold r; rewrite length_delete; eauto).
  assert (Hj : splice_start toIndex (length r) = length r)
    by (apply splice_start_full; lia).
  rewrite Hj, take_ge, drop_ge by lia. done.
Qed.

Lemma reorderSteps_edges_witness :
  let a := mkStep "a" "navigate" None (Some "/") None "t0" None None in
  let b := mkStep "b" "click" (Some "#go") None None "t1" None None in
  let st := mkTimelineState [a; b] None in
  reorderSteps 2 0 st = None
  ∧ reorder_array 2 0 (steps st) = [None; Some a; Some b]
  ∧ reorderSteps (-1) 0 st = Some (mkTimelineState [b; a] None)
  ∧ reorderSteps 0 7 st = Some (mkTimelineState [b; a] None).
Proof.
  intros a b st.
  destruct (reorderSteps_edges 2 0 st) as (Hnone & _).
  destruct (reorderSteps_edges (-1) 0 st) as (_ & _ & Hneg & _).
  destruct (reorderSteps_edges 0 7 st) as (_ & _ & _ & Hlast).
  split; [apply Hnone; right; simpl; lia|].
  split; [reflexivity|].
  split; [rewrite Hneg by lia; reflexivity|].
  rewrite (Hlast a) by (reflexivity || (simpl; lia)). reflexivity.
Defined.

(** *** [removeStep], [addStep], [updateStep] *)

Lemma filter_absent (i : string) (l : list Step) :
  i ∉ id <$> l → filter (λ step, id step ≠ i) l = l.
Proof.
  induction l as [|s l IH]; intros Hnot; [done|].
  rewrite fmap_cons, not_elem_of_cons in Hnot. destruct Hnot as [Hne Hl].
  rewrite filter_cons_True by done. by rewrite IH.
Qed.

Lemma filter_unique (i : string) (l : list Step) :
  NoDup (id <$> l) → i ∈ id <$> l →
  S (length (filter (λ step, id step ≠ i) l)) = length l.
Proof.
  induction l as [|s l IH]; intros Hnd Hin; [by apply elem_of_nil in Hin|].
  rewrite fmap_cons in Hnd, Hin. apply list.NoDup_cons in Hnd as [Hs Hnd].
  destruct (decide (id s = i)) as [Heq|Hne].
  - rewrite filter_cons_False by (by intros ?).
    rewrite filter_absent by (by rewrite <- Heq). done.
  - rewrite filter_cons_True by done. simpl. f_equal. apply IH; [done|].
    apply elem_of_cons in Hin as [?|?]; [congruence|done].
Qed.

(** X6: [removeStep i] keeps exactly the steps whose id is not [i], in
    their order; it clears the selection when the selected step is the one
    removed and keeps it otherwise; it is idempotent; it changes no step
    when no step has id [i]; and when ids are pairwise distinct and [i] is
    one of them, the list gets shorter by exactly one. *)
Theorem removeStep_spec (i : string) (st : TimelineState) :
  (∀ s, s ∈ steps (removeStep i st) ↔ s ∈ steps st ∧ id s ≠ i)
  ∧ steps (removeStep i st) `sublist_of` steps st
  ∧ (selectedStepId st = Some i → selectedStepId (removeStep i st) = None)
  ∧ (selectedStepId st ≠ Some i →
     selectedStepId (removeStep i st) = selectedStepId st)
  ∧ removeStep i (removeStep i st) = removeStep i st
  ∧ (i ∉ step_ids st → steps (removeStep i st) = steps st)
  ∧ (NoDup (step_ids st) → i ∈ step_ids st →
     S (length (steps (removeStep i st))) = length (steps st)).
Proof.
  split.
  { intros s. simpl. rewrite list_elem_of_filter. tauto. }
  split; [apply sublist_filter|].
  split; [intros H; simpl; by rewrite decide_True|].
  split; [intros H; simpl; by rewrite decide_False|].
  split.
  { unfold removeStep. simpl. f_equal.
    - rewrite list_filter_filter. apply list_filter_iff. tauto.
    - repeat case_decide; congruence. }
  split; [apply filter_absent|].
  apply filter_unique.
Qed.

Lemma removeStep_spec_witness :
  let a := mkStep "a" "navigate" None (Some "/") None "t0" None None in
  let b := mkStep "b" "click" (Some "#go") None None "t1" None None in
  let st := mkTimelineState [a; b] (Some "b") in
  removeStep "b" st = mkTimelineState [a] None
  ∧ S (length (steps (removeStep "b" st))) = length (steps st)
  ∧ steps (removeStep "zz" st) = steps st.
Proof.
  intros a b st.
  destruct (removeStep_spec "b" st) as (_ & _ & _ & _ & _ & _ & Hone).
  destruct (removeStep_spec "zz" st) as (_ & _ & _ & _ & _ & Habsent & _).
  split; [reflexivity|].
  split.
  - apply Hone.
    + unfold step_ids. simpl. apply list.NoDup_cons. split; [|apply NoDup_singleton].
      by intros ?%list_elem_of_singleton.
    + unfold step_ids. simpl. by right; left.
  - apply Habsent. unfold step_ids. simpl.
    intros [?|[?|?%elem_of_nil]%elem_of_cons]%elem_of_cons; done.
Defined.

(** X7: adding a step under a fresh id and removing that id again gives
    the state back, provided the selection does not name that id; and a
    fresh id keeps the ids pairwise distinct. *)
Theorem addStep_removeStep (uuid : string) (step : Step) (st : TimelineState) :
  uuid ∉ step_ids st →
  (selectedStepId st ≠ Some uuid → removeStep uuid (addStep uuid step st) = st)
  ∧ (NoDup (step_ids st) → NoDup (step_ids (addStep uuid step st)))
  ∧ step_ids (addStep uuid step st) = step_ids st ++ [uuid].
Proof.
  intros Hfresh. split; [|split].
  - intros Hsel. destruct st as [l sel]. unfold removeStep, addStep. simpl in *.
    f_equal.
    + rewrite list.filter_app, filter_absent by done.
      rewrite filter_cons_False by (by intros ?). by rewrite app_nil_r.
    + by rewrite decide_False.
  - intros Hnd. unfold step_ids, addStep. simpl. rewrite fmap_app. simpl.
    apply list.NoDup_app. split; [done|]. split; [|apply NoDup_singleton].
    intros x Hx ->%list_elem_of_singleton. by apply Hfresh.
  - unfold step_ids, addStep. simpl. by rewrite fmap_app.
Qed.

Lemma addStep_removeStep_witness :
  let a := mkStep "a" "navigate" None (Some "/") None "t0" None None in
  let st := mkTimelineState [a] (Some "a") in
  removeStep "n1" (addStep "n1" (mkStep "ignored" "click" None None None "t1" None None) st)
  = st.
Proof.
  intros a st.
  assert (Hfresh : "n1" ∉ step_ids st).
  { unfold step_ids. simpl. intros [?|?%elem_of_nil]%elem_of_cons; done. }
  destruct (addStep_removeStep "n1"
              (mkStep "ignored" "click" None None None "t1" None None) st Hfresh)
    as (H & _).
  apply H. done.
Defined.

Lemma patch_patch (u : StepPatch) (s : Step) : patch u (patch u s) = patch u s.
Proof. destruct u as [[] [] [] [] [] [] [] []]; reflexivity. Qed.

Lemma patch_empty (s : Step) : patch empty_patch s = s.
Proof. by destruct s. Qed.

(** X8: [updateStep i u] keeps the length of the list and the selection,
    leaves every step whose id is not [i] as it is and applies the patch to
    the others, at their positions; it changes nothing when no step has id
    [i] or when the patch has no key; when the patch carries no id the ids
    stay as they are; and applying the same update twice is the same as
    applying it once. *)
Theorem updateStep_spec (i : string) (u : StepPatch) (st : TimelineState) :
  length (steps (updateStep i u st)) = length (steps st)
  ∧ selectedStepId (updateStep i u st) = selectedStepId st
  ∧ (∀ k s, steps st !! k = Some s →
       steps (updateStep i u st) !! k
       = Some (if decide (id s = i) then patch u s else s))
  ∧ (i ∉ step_ids st → updateStep i u st = st)
  ∧ updateStep i empty_patch st = st
  ∧ (p_id u = None ∨ p_id u = Some i → step_ids (updateStep i u st) = step_ids st)
  ∧ updateStep i u (updateStep i u st) = updateStep i u st.
Proof.
  split; [simpl; by rewrite length_fmap|].
  split; [done|].
  split.
  { intros k s Hs. simpl. by rewrite list_lookup_fmap, Hs. }
  split.
  { intros Hnot. destruct st as [l sel]. unfold updateStep, step_ids in *.
    simpl in *. f_equal. rewrite <- (list_fmap_id l) at 2.
    apply list_fmap_ext. intros k s Hs.
    rewrite decide_False; [done|]. intros <-. apply Hnot.
    apply list_elem_of_fmap. exists s. split; [done|].
    by apply list_elem_of_lookup_2 in Hs. }
  split.
  { destruct st as [l sel]. unfold updateStep. simpl. f_equal.
    rewrite <- (list_fmap_id l) at 2. apply list_fmap_ext. intros k s _.
    case_decide; [apply patch_empty|done]. }
  split.
  { intros Hid. unfold step_ids, updateStep. simpl.
    rewrite <- list_fmap_compose. apply list_fmap_ext. intros k s _. simpl.
    case_decide; [|done]. unfold patch. simpl.
    destruct Hid as [->| ->]; simpl; congruence. }
  unfold updateStep. simpl. f_equal.
  rewrite <- list_fmap_compose. apply list_fmap_ext. intros k s _. simpl.
  destruct (decide (id s = i)) as [Hs|Hs]; [|by rewrite decide_False].
  case_decide; [apply patch_patch|done].
Qed.

(** *** Dragging a step *)

Lemma findIndex_found (i : string) (l : list Step) (k : nat) (s : Step) :
  list_find (λ s, id s = i) l = Some (k, s) →
  findIndex (λ s, id s = i) l = Z.of_nat k ∧ l !! k = Some s ∧ id s = i.
Proof.
  intros H. unfold findIndex. rewrite H. split; [done|].
  by apply list_find_Some in H as (? & ? & _).
Qed.

Lemma findIndex_range (i : string) (l : list Step) :
  (-1 ≤ findIndex (λ s, id s = i) l < Z.of_nat (length l))%Z.
Proof.
  unfold findIndex. destruct (list_find _ l) as [[k s]|] eqn:H; [|lia].
  apply list_find_Some in H as (Hk%lookup_lt_Some & _). lia.
Qed.

(** X9: [handleDragEnd] changes nothing when there is no drop target or
    the step is dropped on itself.  Otherwise, on a non-empty list, it
    always yields a proper list, a permutation of the old one with the same
    selection; if both ids are found, the dragged step ends at the position
    the target had.  Only on an empty list does it leave [undefined]. *)
Theorem handleDragEnd_spec (active : string) (over : option string) (st : TimelineState) :
  (over = None ∨ over = Some active → handleDragEnd active over st = Some st)
  ∧ (steps st ≠ [] →
     ∃ st', handleDragEnd active over st = Some st'
            ∧ steps st' ≡ₚ steps st
            ∧ selectedStepId st' = selectedStepId st)
  ∧ (∀ o a k x y,
       over = Some o → active ≠ o →
       list_find (λ s, id s = active) (steps st) = Some (a, x) →
       list_find (λ s, id s = o) (steps st) = Some (k, y) →
       ∃ st', handleDragEnd active over st = Some st'
              ∧ steps st' !! k = Some x
              ∧ delete k (steps st') = delete a (steps st))
  ∧ (∀ o, steps st = [] → over = Some o → active ≠ o →
       handleDragEnd active over st = None).
Proof.
  split.
  { intros [->| ->]; [done|]. unfold handleDragEnd. by rewrite decide_False by tauto. }
  split.
  { intros Hne. unfold handleDragEnd.
    destruct over as [o|]; [|by exists st].
    case_decide; [|by exists st].
    set (f := findIndex (λ s, id s = active) (steps st)).
    set (t := findIndex (λ s, id s = o) (steps st)).
    pose proof (findIndex_range active (steps st)) as Hf. fold f in Hf.
    assert (Hlen : (0 < length (steps st))%nat)
      by (destruct (steps st); [done | simpl; lia]).
    assert (Hi : (splice_start f (length (steps st)) < length (steps st))%nat)
      by (unfold splice_start; case_decide; lia).
    destruct (lookup_lt_is_Some_2 _ _ Hi) as [x Hx].
    unfold reorderSteps.
    rewrite (reorder_array_moves f t (steps st) x Hx), all_defined_fmap.
    eexists. split; [done|]. simpl. split; [|done].
    rewrite insert_at_perm. by rewrite <- delete_Permutation. }
  split.
  { intros o a k x y -> Hne Ha Hk. unfold handleDragEnd. rewrite decide_True by done.
    apply findIndex_found in Ha as (-> & Hx & _).
    apply findIndex_found in Hk as (-> & Hy & _).
    destruct (reorderSteps_inside a k st x Hx) as (st' & -> & ? & ? & _).
    - by eapply lookup_lt_Some.
    - by exists st'. }
  intros o Hnil -> Hne. unfold handleDragEnd. rewrite decide_True by done.
  rewrite eq_None_not_Some, reorderSteps_Some_iff, Hnil. simpl. lia.
Qed.

Lemma handleDragEnd_spec_witness :
  let a := mkStep "a" "navigate" None (Some "/") None "t0" None None in
  let b := mkStep "b" "click" (Some "#go") None None "t1" None None in
  let c := mkStep "c" "fill" (Some "#q") (Some "x") None "t2" None None in
  let st := mkTimelineState [a; b; c] None in
  ∃ st', handleDragEnd "c" (Some "a") st = Some st' ∧ steps st' !! 0%nat = Some c.
Proof.
  intros a b c st.
  destruct (handleDragEnd_spec "c" (Some "a") st) as (_ & _ & H & _).
  destruct (H "a" 2%nat 0%nat c a eq_refl) as (st' & H1 & H2 & _);
    [done | reflexivity | reflexivity |].
  exists st'. split; [exact H1 | exact H2].
Defined.

(** *** Ids *)

Lemma addStep_ids (uuid : string) (step : Step) (st : TimelineState) :
  step_ids (addStep uuid step st) = step_ids st ++ [uuid].
Proof. unfold step_ids, addStep. simpl. by rewrite fmap_app. Qed.

Lemma addStep_NoDup (uuid : string) (step : Step) (st : TimelineState) :
  uuid ∉ step_ids st → NoDup (step_ids st) → NoDup (step_ids (addStep uuid step st)).
Proof.
  intros Hfresh Hnd. rewrite addStep_ids.
  apply list.NoDup_app. split; [done|]. split; [|apply NoDup_singleton].
  intros x Hx ->%list_elem_of_singleton. by apply Hfresh.
Qed.

Lemma updateStep_ids (i : string) (u : StepPatch) (st : TimelineState) :
  p_id u = Some i → step_ids (updateStep i u st) = step_ids st.
Proof.
  intros Hid. unfold step_ids, updateStep. simpl.
  rewrite <- list_fmap_compose. apply list_fmap_ext. intros k s _. simpl.
  case_decide; [|done]. unfold patch. rewrite Hid. simpl. congruence.
Qed.

Lemma removeStep_NoDup (i : string) (st : TimelineState) :
  NoDup (step_ids st) → NoDup (step_ids (removeStep i st)).
Proof.
  intros Hnd. eapply sublist_NoDup; [exact Hnd|].
  unfold step_ids. simpl. apply fmap_sublist, sublist_filter.
Qed.

Lemma reorderSteps_perm (fromIndex toIndex : Z) (st st' : TimelineState) :
  reorderSteps fromIndex toIndex st = Some st' →
  steps st' ≡ₚ steps st ∧ selectedStepId st' = selectedStepId st.
Proof.
  intros H.
  assert (Hsome : is_Some (reorderSteps fromIndex toIndex st)) by eauto.
  apply reorderSteps_Some_iff in Hsome.
  destruct (lookup_lt_is_Some_2 _ _ Hsome) as [x Hx].
  unfold reorderSteps in H.
  rewrite (reorder_array_moves _ _ _ _ Hx), all_defined_fmap in H.
  injection H as <-. simpl. split; [|done].
  rewrite insert_at_perm. by rewrite <- delete_Permutation.
Qed.

Lemma handleDragEnd_perm (active : string) (over : option string)
    (st st' : TimelineState) :
  handleDragEnd active over st = Some st' →
  steps st' ≡ₚ steps st ∧ selectedStepId st' = selectedStepId st.
Proof.
  unfold handleDragEnd. destruct over as [o|]; [|by intros [= <-]].
  case_decide; [apply reorderSteps_perm | by intros [= <-]].
Qed.

Lemma updateStep_absent (i : string) (u : StepPatch) (st : TimelineState) :
  i ∉ step_ids st → updateStep i u st = st.
Proof.
  intros Hnot. destruct st as [l sel]. unfold updateStep, step_ids in *. simpl in *.
  f_equal. induction l as [|s l IH]; [done|].
  rewrite fmap_cons in *. apply not_elem_of_cons in Hnot as [Hne Hnot].
  rewrite decide_False by done. by rewrite IH.
Qed.

End TimelineStoreFacts.

(** ** The recording page *)

Module HomePageFacts.
Import StepModel HomePage.

(** *** Step ids *)

Lemma handle_action_timeline (uuid : string) (a : ActionData) (h : Home) :
  timeline (handle_action uuid a h)
  = TimelineStore.addStep uuid
      (mkStep EmptyString (a_type a) (a_selector a) (a_value a) (a_screenshot a)
         (a_timestamp a) (a_assertion_config a) None) (timeline h).
Proof.
  unfold handle_action. case_decide; [|done]. by destruct (truthy_value _).
Qed.

Lemma handle_event_timeline (uuid now : string) (ev : Event) (h : Home) :
  (∀ a, ev ≠ EvAction a) → timeline (handle_event uuid now ev h) = timeline h.
Proof.
  intros Hev. destruct ev as [role content|status|image|a|success message|message];
    simpl; try done.
  - unfold handle_chat. by case_decide.
  - unfold handle_status. by repeat case_decide.
  - by destruct (Hev a).
Qed.

Lemma handleSaveTest_timeline (uuid now today : string) (ok : bool) (h : Home) :
  timeline (handleSaveTest uuid now today ok h) = timeline h.
Proof.
  unfold handleSaveTest. destruct (TimelineStore.steps (timeline h)); [done|].
  by destruct ok.
Qed.

Lemma truthy_value_Some (v : option string) (s : string) :
  truthy_value v = Some s ↔ v = Some s ∧ s ≠ EmptyString.
Proof.
  unfold truthy_value, AssertionEditor.truthy.
  destruct v as [x|]; [|split; [done | by intros [? _]]].
  destruct (decide (x = EmptyString)) as [->|Hne].
  - rewrite bool_decide_eq_true_2 by done. simpl.
    split; [done | by intros [[= <-] ?]].
  - rewrite bool_decide_eq_false_2 by done. simpl.
    split; [by intros [= <-] | by intros [[= <-] _]].
Qed.

Lemma step_NoDup (op : Op) (h : Home) :
  NoDup (TimelineStore.step_ids (timeline h)) →
  match new_step_id op h with
  | Some uuid => uuid ∉ TimelineStore.step_ids (timeline h)
  | None => True
  end →
  NoDup (TimelineStore.step_ids (timeline (step op h))).
Proof.
  intros Hnd Hfresh.
  destruct op as [uuid now ev|uuid now content| | |uuid now today ok| | |s
                 |uuid now f parsed| |active over|i|i| |x|x| |b]; simpl in *;
    try done.
  - unfold deliver. destruct (ws h); [|done].
    destruct ev as [role content|status|image|a|success message|message];
      try (by rewrite handle_event_timeline).
    simpl. rewrite handle_action_timeline.
    by apply TimelineStoreFacts.addStep_NoDup.
  - unfold handleSendMessage. by destruct (ws h).
  - unfold handleStartAutomation. by destruct (ws h).
  - unfold handleStopAutomation. by destruct (ws h).
  - by rewrite handleSaveTest_timeline.
  - unfold handleEditStep. by destruct (isAssertion s).
  - unfold editorSave.
    destruct (assertionEditorOpen h && AssertionEditor.canSave f); [|done].
    simpl. unfold handleSaveAssertion. simpl.
    destruct (truthy_value (id <$> editingStep h)) as [i|]; simpl.
    + by rewrite TimelineStoreFacts.updateStep_ids.
    + by apply TimelineStoreFacts.addStep_NoDup.
  - unfold dragEnd. destruct (TimelineStore.steps (timeline h)) eqn:Hl; [done|].
    destruct (TimelineStore.handleDragEnd active over (timeline h)) as [t|] eqn:Ht;
      [|done].
    simpl. apply TimelineStoreFacts.handleDragEnd_perm in Ht as [Hp _].
    unfold TimelineStore.step_ids. by rewrite Hp.
  - by apply TimelineStoreFacts.removeStep_NoDup.
  - apply NoDup_nil_2.
  - unfold resizeStart. by destruct (isRightCollapsed h).
  - unfold resizeMove. by destruct (drag h) as [[? ?]|].
Qed.

(** X10: as long as every id drawn for a new step is new to the timeline,
    the ids of the steps stay pairwise distinct along any trace of the
    recording page: events, edits through the dialog, drags, removals. *)
Theorem step_ids_unique (ops : list Op) (h : Home) :
  NoDup (TimelineStore.step_ids (timeline h)) →
  fresh_ids ops h →
  NoDup (TimelineStore.step_ids (timeline (run ops h))).
Proof.
  revert h. induction ops as [|op rest IH]; intros h Hnd Hfresh; [done|].
  simpl in *. destruct Hfresh as [Hop Hrest].
  apply IH; [|done]. by apply step_NoDup.
Qed.

Lemma step_ids_unique_witness :
  let click := mkActionData "click" (Some "#go") None None "t1" None in
  let nav := mkActionData "navigate" None (Some "/") None "t0" None in
  let ops := [Deliver "u1" "n" (EvAction nav);
              Deliver "u2" "n" (EvAction click);
              DragEnd "u2" (Some "u1");
              AddAssertion;
              EditorSave "u3" "n"
                (AssertionEditor.mkForm "assert_visible" "#title" EmptyString
                   OpEquals EmptyString "GET" EmptyString "200" EmptyString)
                None] in
  TimelineStore.step_ids (timeline (run ops (initSession (Connected "s") mounted)))
  = ["u2"; "u1"; "u3"]
  ∧ NoDup (TimelineStore.step_ids
             (timeline (run ops (initSession (Connected "s") mounted)))).
Proof.
  intros click nav ops. split; [reflexivity|].
  apply step_ids_unique; [apply NoDup_nil_2|].
  repeat split; vm_compute; try exact I;
    intros Hin; repeat (apply elem_of_cons in Hin as [Hin|Hin]; [discriminate|]);
    by apply elem_of_nil in Hin.
Defined.

(** *** What was typed is what was sent *)

Lemma user_messages_assistant (f : ChatStore.ChatState → ChatStore.ChatState)
    (h : Home) :
  filter (λ m, ChatStore.m_role m = ChatStore.User) (ChatStore.messages (f (chat h)))
  = filter (λ m, ChatStore.m_role m = ChatStore.User) (ChatStore.messages (chat h)) →
  user_messages (on_chat f h) = user_messages h.
Proof. intros H. unfold user_messages. simpl. by rewrite H. Qed.

Lemma filter_user_assistant (uuid now content : string) (s : ChatStore.ChatState) :
  filter (λ m, ChatStore.m_role m = ChatStore.User)
    (ChatStore.messages (ChatStore.addMessage uuid now ChatStore.Assistant content s))
  = filter (λ m, ChatStore.m_role m = ChatStore.User) (ChatStore.messages s).
Proof.
  simpl. rewrite list.filter_app, filter_cons_False by done.
  by rewrite app_nil_r.
Qed.



(** *** The browser store under the recording page *)

Lemma handle_status_browser (status : string) (h : Home) :
  BrowserStore.status (browser (handle_status status h)) ≠ Types.BsIdle
  ∨ browser (handle_status status h) = browser h.
Proof. unfold handle_status. repeat case_decide; simpl; auto. Qed.

(** What an operation does to the browser store: nothing, or it sets the
    status to something other than idle, or it sets the screenshot, or it
    sets the current URL (possibly after a step was added). *)
Lemma step_browser (op : Op) (h : Home) :
  browser (step op h) = browser h
  ∨ (ws h = true
     ∧ ((∃ st, st ≠ Types.BsIdle
               ∧ browser (step op h) = BrowserStore.setStatus st (browser h))
        ∨ (∃ img, browser (step op h) = BrowserStore.setScreenshot img (browser h))
        ∨ (∃ url, browser (step op h) = BrowserStore.setCurrentUrl url (browser h)))).
Proof.
  destruct op as [uuid now ev|uuid now content| | |uuid now today ok| | |s
                 |uuid now f parsed| |active over|i|i| |x|x| |b]; simpl;
    try (by left).
  - unfold deliver. destruct (ws h) eqn:Hws; [|by left].
    destruct ev as [role content|status|image|a|success message|message]; simpl.
    + left. unfold handle_chat. by case_decide.
    + unfold handle_status. repeat case_decide; simpl; try (by left);
        right; (split; [done|]); left; eexists; (split; [|done]); done.
    + right. split; [done|]. right. left. by eexists.
    + unfold handle_action. case_decide; [|by left].
      destruct (truthy_value (a_value a)) as [url|]; [|by left].
      right. split; [done|]. right. right. by eexists.
    + right. split; [done|]. left. by exists Types.BsStopped.
    + right. split; [done|]. left. by exists Types.BsError.
  - left. unfold handleSendMessage. by destruct (ws h).
  - unfold handleStartAutomation. destruct (ws h) eqn:Hws; [|by left].
    right. split; [done|]. left. by exists Types.BsStarting.
  - unfold handleStopAutomation. destruct (ws h) eqn:Hws; [|by left].
    right. split; [done|]. left. by exists Types.BsStopped.
  - left. unfold handleSaveTest.
    destruct (TimelineStore.steps (timeline h)); [done|]. by destruct ok.
  - left. unfold handleEditStep. by destruct (isAssertion s).
  - left. unfold editorSave.
    destruct (assertionEditorOpen h && AssertionEditor.canSave f); [|done].
    unfold handleSaveAssertion. by destruct (truthy_value _).
  - left. unfold dragEnd. destruct (TimelineStore.steps (timeline h)); [done|].
    by destruct (TimelineStore.handleDragEnd _ _ _).
  - left. unfold resizeStart. by destruct (isRightCollapsed h).
  - left. unfold resizeMove. by destruct (drag h) as [[? ?]|].
Qed.

(** X12: the recording page never resets the browser store.  Along any
    trace, a status that is idle at the end was idle all along (once the
    status has left idle it never comes back), a screenshot once set stays
    set, and so does the current URL; nothing in the store changes before
    the session socket is connected; and a [status] event with an unknown
    status string changes nothing at all. *)
Theorem browser_never_reset (ops : list Op) (h : Home) :
  (BrowserStore.status (browser (run ops h)) = Types.BsIdle →
   BrowserStore.status (browser h) = Types.BsIdle)
  ∧ (is_Some (BrowserStore.screenshot (browser h)) →
     is_Some (BrowserStore.screenshot (browser (run ops h))))
  ∧ (is_Some (BrowserStore.currentUrl (browser h)) →
     is_Some (BrowserStore.currentUrl (browser (run ops h))))
  ∧ (∀ op, ws h = false → browser (step op h) = browser h)
  ∧ (∀ status,
       status ∉ ["thinking"; "starting_browser"; "running"; "stopped"] →
       handle_status status h = h).
Proof.
  split; [|split; [|split; [|split]]].
  - revert h. induction ops as [|op rest IH]; intros h Hend; [done|].
    simpl in Hend. apply IH in Hend.
    destruct (step_browser op h)
      as [Heq|(_ & [(st & Hst & Heq)|[(img & Heq)|(url & Heq)]])];
      rewrite Heq in Hend; try done.
  - revert h. induction ops as [|op rest IH]; intros h Hs; [done|].
    simpl. apply IH.
    destruct (step_browser op h)
      as [Heq|(_ & [(st & Hst & Heq)|[(img & Heq)|(url & Heq)]])];
      rewrite Heq; simpl; eauto.
  - revert h. induction ops as [|op rest IH]; intros h Hs; [done|].
    simpl. apply IH.
    destruct (step_browser op h)
      as [Heq|(_ & [(st & Hst & Heq)|[(img & Heq)|(url & Heq)]])];
      rewrite Heq; simpl; eauto.
  - intros op Hws. destruct (step_browser op h) as [Heq|(Hws' & _)]; [done|].
    congruence.
  - intros status Hnot. unfold handle_status.
    rewrite !not_elem_of_cons in Hnot. destruct Hnot as (? & ? & ? & ? & _).
    by rewrite !decide_False by done.
Qed.

Lemma browser_never_reset_witness :
  let ops := [StartAutomation;
              Deliver "u1" "n" (EvStatus "running");
              Deliver "u2" "n" (EvStatus "idle");
              Deliver "u3" "n" (EvComplete true "done")] in
  let h := initSession (Connected "s") mounted in
  BrowserStore.status (browser (run ops h)) = Types.BsStopped
  ∧ handle_status "idle" h = h
  ∧ browser (step StartAutomation mounted) = browser mounted.
Proof.
  intros ops h.
  destruct (browser_never_reset ops h) as (_ & _ & _ & _ & Hunknown).
  destruct (browser_never_reset ops mounted) as (_ & _ & _ & Hws & _).
  split; [reflexivity|].
  split; [|by apply Hws].
  apply Hunknown. rewrite !not_elem_of_cons. repeat split; try done.
  by intros ?%elem_of_nil.
Defined.

(** *** The width of the timeline panel *)

Lemma Qc_max_bounds (a b : Qc) : (a ≤ Qc_max a b)%Qc ∧ (b ≤ Qc_max a b)%Qc.
Proof.
  unfold Qc_max. case_decide; split; try done; try apply Qcle_refl.
  by apply Qclt_le_weak, Qcnot_le_lt.
Qed.

Lemma Qc_min_bounds (a b : Qc) : (Qc_min a b ≤ a)%Qc ∧ (Qc_min a b ≤ b)%Qc.
Proof.
  unfold Qc_min. case_decide; split; try done; try apply Qcle_refl.
  by apply Qclt_le_weak, Qcnot_le_lt.
Qed.

Lemma clamp_width_bounds (w : Qc) :
  (Q2Qc 280 ≤ clamp_width w)%Qc ∧ (clamp_width w ≤ Q2Qc 450)%Qc.
Proof.
  unfold clamp_width. split; [apply Qc_max_bounds|].
  unfold Qc_max. case_decide; [apply Qc_min_bounds|]. by compute.
Qed.

Lemma clamp_width_inside (w : Qc) :
  (Q2Qc 280 ≤ w)%Qc → (w ≤ Q2Qc 450)%Qc → clamp_width w = w.
Proof.
  intros Hlo Hhi. unfold clamp_width, Qc_min, Qc_max.
  destruct (decide (Q2Qc 450 ≤ w)%Qc) as [Hge|Hlt].
  - assert (w = Q2Qc 450) as -> by (by apply Qcle_antisym).
    by rewrite decide_True by (by compute).
  - by rewrite decide_True.
Qed.

(** X13: the width of the timeline panel is clamped.  Whatever the mouse
    does, a resize sets the width to a value between 280 and 450, to the
    requested width itself when that lies in the range; and from the
    initial 320 the width stays within 280..450 along every trace. *)
Theorem panel_width_bounded (ops : list Op) (h : Home) :
  (∀ w, (Q2Qc 280 ≤ clamp_width w)%Qc ∧ (clamp_width w ≤ Q2Qc 450)%Qc)
  ∧ (∀ w, (Q2Qc 280 ≤ w)%Qc → (w ≤ Q2Qc 450)%Qc → clamp_width w = w)
  ∧ ((Q2Qc 280 ≤ rightPanelWidth h)%Qc ∧ (rightPanelWidth h ≤ Q2Qc 450)%Qc →
     (Q2Qc 280 ≤ rightPanelWidth (run ops h))%Qc
     ∧ (rightPanelWidth (run ops h) ≤ Q2Qc 450)%Qc)
  ∧ (∀ o, (Q2Qc 280 ≤ rightPanelWidth (run ops (initSession o mounted)))%Qc
          ∧ (rightPanelWidth (run ops (initSession o mounted)) ≤ Q2Qc 450)%Qc).
Proof.
  assert (Hstep : ∀ op h,
    (Q2Qc 280 ≤ rightPanelWidth h)%Qc ∧ (rightPanelWidth h ≤ Q2Qc 450)%Qc →
    (Q2Qc 280 ≤ rightPanelWidth (step op h))%Qc
    ∧ (rightPanelWidth (step op h) ≤ Q2Qc 450)%Qc).
  { intros op h0 Hh.
    destruct op as [uuid now ev|uuid now content| | |uuid now today ok| | |s
                   |uuid now f parsed| |active over|i|i| |x|x| |b]; simpl;
      try done.
    - unfold deliver. destruct (ws h0); [|done].
      destruct ev as [role content|status|image|a|success message|message]; simpl;
        try done.
      + unfold handle_chat. by case_decide.
      + unfold handle_status. by repeat case_decide.
      + unfold handle_action. case_decide; [|done]. by destruct (truthy_value _).
    - unfold handleSendMessage. by destruct (ws h0).
    - unfold handleStartAutomation. by destruct (ws h0).
    - unfold handleStopAutomation. by destruct (ws h0).
    - unfold handleSaveTest. destruct (TimelineStore.steps (timeline h0)); [done|].
      by destruct ok.
    - unfold handleEditStep. by destruct (isAssertion s).
    - unfold editorSave.
      destruct (assertionEditorOpen h0 && AssertionEditor.canSave f); [|done].
      unfold handleSaveAssertion. by destruct (truthy_value _).
    - unfold dragEnd. destruct (TimelineStore.steps (timeline h0)); [done|].
      by destruct (TimelineStore.handleDragEnd _ _ _).
    - unfold resizeStart. by destruct (isRightCollapsed h0).
    - unfold resizeMove. destruct (drag h0) as [[startX startWidth]|]; [|done].
      simpl. apply clamp_width_bounds. }
  assert (Hrun : ∀ ops h,
    (Q2Qc 280 ≤ rightPanelWidth h)%Qc ∧ (rightPanelWidth h ≤ Q2Qc 450)%Qc →
    (Q2Qc 280 ≤ rightPanelWidth (run ops h))%Qc
    ∧ (rightPanelWidth (run ops h) ≤ Q2Qc 450)%Qc).
  { clear ops h. induction ops as [|op rest IH]; intros h Hh; [done|].
    simpl. by apply IH, Hstep. }
  split; [apply clamp_width_bounds|].
  split; [apply clamp_width_inside|].
  split; [apply Hrun|].
  intros o. apply Hrun. destruct o; simpl; by compute.
Qed.

Lemma panel_width_bounded_witness :
  let ops := [ResizeStart (Q2Qc 900); ResizeMove (Q2Qc 100); ResizeMove (Q2Qc 880);
              ResizeEnd; ResizeMove (Q2Qc 0)] in
  rightPanelWidth (run (take 2 ops) mounted) = Q2Qc 450
  ∧ rightPanelWidth (run ops mounted) = Q2Qc 340
  ∧ (Q2Qc 280 ≤ rightPanelWidth (run ops mounted))%Qc.
Proof.
  intros ops.
  destruct (panel_width_bounded ops mounted) as (_ & _ & H & _).
  split; [by vm_compute|]. split; [by vm_compute|].
  apply H. by compute.
Defined.

(** *** Saving the recording *)

Lemma targetUrl_origin (l : list Step) :
  targetUrl l = "https://example.com"
  ∨ ∃ s, s ∈ l ∧ type s = "navigate" ∧ value s = Some (targetUrl l)
         ∧ targetUrl l ≠ EmptyString.
Proof.
  unfold targetUrl. destruct (find _ l) as [s|] eqn:Hfind; [|by left].
  apply find_some in Hfind as [Hin Hty].
  apply list_elem_of_In in Hin. apply bool_decide_eq_true in Hty.
  destruct (truthy_value (value s)) as [url|] eqn:Hval; [|by left].
  right. exists s. apply truthy_value_Some in Hval as [Hv Hne]. by simpl.
Qed.

(** The first step of type navigate decides: when its value is missing or
    empty the default is used, whatever later steps hold. *)
Lemma targetUrl_first (pre post : list Step) (s : Step) :
  Forall (λ x, type x ≠ "navigate") pre → type s = "navigate" →
  targetUrl (pre ++ s :: post)
  = default "https://example.com" (truthy_value (value s)).
Proof.
  intros Hpre Hs. unfold targetUrl.
  induction Hpre as [|x pre Hx _ IH]; simpl.
  - by rewrite bool_decide_true.
  - by rewrite bool_decide_false.
Qed.

Lemma created_order_index (l : list Step) :
  order_index <$> imap to_new_step l = seq 0 (length l).
Proof.
  rewrite fmap_imap.
  rewrite (imap_ext _ (λ j _, j)) by done.
  by rewrite imap_seq_0, list_fmap_id.
Qed.

Lemma created_types (l : list Step) :
  n_type <$> imap to_new_step l = type <$> l.
Proof.
  rewrite fmap_imap. rewrite (imap_ext _ (const type)) by done.
  apply imap_const.
Qed.

Lemma actionable_types (l : list Step) :
  type <$> actionableSteps l = filter (λ t, t ∈ validStepTypes) (type <$> l).
Proof.
  unfold actionableSteps. induction l as [|s l IH]; [done|].
  rewrite fmap_cons, (list.filter_cons _ s), (list.filter_cons _ (type s)).
  destruct (decide (type s ∈ validStepTypes)); [rewrite fmap_cons|]; by rewrite IH.
Qed.

(** X11: what Save sends.  With an empty timeline nothing happens.
    Otherwise exactly one create call is made (also when no step has a
    valid type: the test is then created without steps), and in it: the
    step types are those of the recorded steps that are valid, in the
    recorded order; the order indexes are 0, 1, 2, ... without a gap,
    whatever was filtered out; each step carries the selector, value and
    assertion config recorded at that position; the target URL is the
    default, or the non-empty value of a recorded navigate step, and it is
    decided by the first navigate step alone.  The timeline, the browser
    store and the socket are left alone; the chat gets one assistant
    message when the call succeeds and none when it fails. *)
Theorem handleSaveTest_spec (uuid now today : string) (ok : bool) (h : Home) :
  let l := TimelineStore.steps (timeline h) in
  let h' := handleSaveTest uuid now today ok h in
  timeline h' = timeline h ∧ browser h' = browser h ∧ sent h' = sent h
  ∧ ws h' = ws h
  ∧ (l = [] → h' = h)
  ∧ (l ≠ [] →
     ∃ c, created h' = created h ++ [c]
          ∧ n_type <$> c_steps c = filter (λ t, t ∈ validStepTypes) (type <$> l)
          ∧ order_index <$> c_steps c = seq 0 (length (c_steps c))
          ∧ (∀ i n, c_steps c !! i = Some n →
               ∃ s, actionableSteps l !! i = Some s ∧ s ∈ l
                    ∧ n = mkNewTestStep (type s) (selector s) (value s) i
                            (assertion_config s))
          ∧ (c_target_url c = "https://example.com"
             ∨ ∃ s, s ∈ l ∧ type s = "navigate" ∧ value s = Some (c_target_url c)
                    ∧ c_target_url c ≠ EmptyString)
          ∧ (∀ pre s post, l = pre ++ s :: post →
               Forall (λ x, type x ≠ "navigate") pre → type s = "navigate" →
               c_target_url c = default "https://example.com" (truthy_value (value s)))
          ∧ ChatStore.messages (chat h')
            = ChatStore.messages (chat h)
              ++ (if ok
                  then [ChatStore.mkChatMessage uuid ChatStore.Assistant
                          "Test saved successfully! You can find it in your test library."
                          now]
                  else [])).
Proof.
  intros l h'. subst l h'. unfold handleSaveTest.
  destruct (TimelineStore.steps (timeline h)) as [|s0 l0] eqn:Hl.
  { repeat split; try done. }
  set (l := s0 :: l0) in *.
  split; [by destruct ok|]. split; [by destruct ok|]. split; [by destruct ok|].
  split; [by destruct ok|]. split; [done|]. intros _.
  eexists. split; [by destruct ok|]. simpl.
  split; [by rewrite created_types, actionable_types|].
  split; [by rewrite created_order_index, length_imap|].
  split.
  { intros i n Hn. rewrite list_lookup_imap in Hn.
    destruct (actionableSteps l !! i) as [s|] eqn:Hs; [|done].
    simplify_eq/=. exists s. split; [done|]. split; [|done].
    apply list_elem_of_lookup_2 in Hs. unfold actionableSteps in Hs.
    by apply list_elem_of_filter in Hs as [_ ?]. }
  split; [apply targetUrl_origin|].
  split.
  { intros pre s post -> Hpre Hs. by apply targetUrl_first. }
  destruct ok; simpl; [done|]. by rewrite app_nil_r.
Qed.

Lemma handleSaveTest_spec_witness :
  let nav v := mkStep "n" "navigate" None v None "t" None None in
  let odd := mkStep "o" "press" (Some "#k") None None "t" None None in
  let click := mkStep "c" "click" (Some "#go") None None "t" None None in
  let h := on_timeline
             (TimelineStore.setSteps
                [odd; nav (Some EmptyString); click; nav (Some "https://b.example")])
             mounted in
  created (handleSaveTest "u" "n" "d" false h)
  = [mkTestCreate "Test d" "https://example.com"
       [mkNewTestStep "navigate" None (Some EmptyString) 0 None;
        mkNewTestStep "click" (Some "#go") None 1 None;
        mkNewTestStep "navigate" None (Some "https://b.example") 2 None]]
  ∧ ChatStore.messages (chat (handleSaveTest "u" "n" "d" false h)) = []
  ∧ handleSaveTest "u" "n" "d" true mounted = mounted.
Proof.
  intros nav odd click h.
  destruct (handleSaveTest_spec "u" "n" "d" true mounted) as (_ & _ & _ & _ & Hnil & _).
  destruct (handleSaveTest_spec "u" "n" "d" false h) as (_ & _ & _ & _ & _ & Hcons).
  destruct Hcons as (c & Hc & _); [done|].
  split; [by vm_compute|]. split; [by vm_compute|]. by apply Hnil.
Defined.

(** *** Saving from the assertion dialog *)

Lemma or_else_idem (a b : string) :
  AssertionEditor.or_else (AssertionEditor.or_else a b) b = AssertionEditor.or_else a b.
Proof.
  unfold AssertionEditor.or_else.
  destruct (AssertionEditor.truthy a) eqn:Ha; [by rewrite Ha|].
  by destruct (AssertionEditor.truthy b).
Qed.

Lemma handleSave_timestamp (step : option Step) (f : AssertionEditor.Form)
    (parsed : option Z) (now : string) :
  AssertionEditor.or_else
    (AssertionEditor.d_timestamp (AssertionEditor.handleSave step f parsed now)) now
  = AssertionEditor.d_timestamp (AssertionEditor.handleSave step f parsed now).
Proof.
  destruct step as [s|]; simpl; [apply or_else_idem|].
  unfold AssertionEditor.or_else. by destruct (AssertionEditor.truthy now).
Qed.

(** X16: the Save button of the assertion dialog, on the page.  It does
    nothing while the dialog is closed or the button disabled.  Otherwise it
    closes the dialog and leaves browser, chat and socket alone, and:
    - when the dialog was opened on a step (with a non-empty id), the ids of
      the timeline and their order stay as they are, every step with another
      id is untouched, and a step with that id takes type, selector,
      timestamp and assertion config from the dialog while it keeps its
      value, screenshot and assertion result; when no step of the timeline
      has that id any more, the timeline does not change at all;
    - when the dialog was opened for a new assertion, one step is appended,
      with the drawn id, no value and no screenshot. *)
Theorem editorSave_spec (uuid now : string) (f : AssertionEditor.Form)
    (parsed : option Z) (h : Home) :
  let d := AssertionEditor.handleSave (editingStep h) f parsed now in
  let h' := editorSave uuid now f parsed h in
  (assertionEditorOpen h && AssertionEditor.canSave f = false → h' = h)
  ∧ (assertionEditorOpen h && AssertionEditor.canSave f = true →
     assertionEditorOpen h' = false
     ∧ browser h' = browser h ∧ chat h' = chat h ∧ sent h' = sent h
     ∧ created h' = created h
     ∧ TimelineStore.selectedStepId (timeline h')
       = TimelineStore.selectedStepId (timeline h)
     ∧ (∀ s, editingStep h = Some s → id s ≠ EmptyString →
          TimelineStore.step_ids (timeline h') = TimelineStore.step_ids (timeline h)
          ∧ (∀ k x, TimelineStore.steps (timeline h) !! k = Some x →
               TimelineStore.steps (timeline h') !! k
               = Some (if decide (id x = id s)
                       then mkStep (id s) (AssertionEditor.assertionType f)
                              (AssertionEditor.d_selector d) (value x) (screenshot x)
                              (AssertionEditor.or_else (timestamp s) now)
                              (AssertionEditor.d_config d) (assertion_result x)
                       else x))
          ∧ (id s ∉ TimelineStore.step_ids (timeline h) → timeline h' = timeline h))
     ∧ (editingStep h = None ∨ (∃ s, editingStep h = Some s ∧ id s = EmptyString) →
        TimelineStore.steps (timeline h')
        = TimelineStore.steps (timeline h)
          ++ [mkStep uuid (AssertionEditor.assertionType f)
                (AssertionEditor.d_selector d) None None
                (AssertionEditor.d_timestamp d) (AssertionEditor.d_config d) None])).
Proof.
  intros d h'. subst h'. unfold editorSave.
  destruct (assertionEditorOpen h && AssertionEditor.canSave f) eqn:Hgo;
    (split; [done|]); [|done].
  intros _. fold d. unfold handleSaveAssertion.
  destruct (truthy_value (AssertionEditor.d_id d)) as [i|] eqn:Hid.
  - apply truthy_value_Some in Hid as [Hid Hne]. subst d. simpl in Hid.
    destruct (editingStep h) as [s|] eqn:Hs; [|done]. simplify_eq/=.
    do 6 (split; [done|]). split.
    + intros s' [= <-] _. split; [by apply TimelineStoreFacts.updateStep_ids|].
      split.
      * intros k x Hx. rewrite list_lookup_fmap, Hx. simpl.
        by case_decide.
      * intros Hnot. by apply TimelineStoreFacts.updateStep_absent.
    + intros [?|(s' & [= <-] & ?)]; done.
  - subst d. do 6 (split; [done|]). split.
    + intros s Hs Hne. exfalso.
      assert (truthy_value (Some (id s)) = Some (id s)) as Hx
        by (by apply truthy_value_Some).
      rewrite Hs in Hid. simpl in Hid. simpl in Hx. congruence.
    + intros _. pose proof (handleSave_timestamp (editingStep h) f parsed now) as Ht.
      simpl in *. by rewrite Ht.
Qed.

Lemma editorSave_spec_witness :
  let old := mkStep "a1" "assert_text" (Some "#title") (Some "kept") (Some "shot")
               "t0" None (Some (mkAssertionResult false "was wrong" None)) in
  let other := mkStep "c1" "click" (Some "#go") None None "t1" None None in
  let f := AssertionEditor.mkForm "assert_url" "#title" "/home" OpContains
             EmptyString "GET" EmptyString "200" EmptyString in
  let h := handleEditStep old
             (on_timeline (TimelineStore.setSteps [other; old]) mounted) in
  TimelineStore.steps (timeline (editorSave "u" "now" f None h))
  = [other;
     mkStep "a1" "assert_url" None (Some "kept") (Some "shot") "t0"
       (Some (mkAssertionConfig (Some "/home") (Some OpContains) None None None None
                None))
       (Some (mkAssertionResult false "was wrong" None))]
  ∧ assertionEditorOpen (editorSave "u" "now" f None h) = false
  ∧ timeline (editorSave "u" "now" f None
                (on_timeline (TimelineStore.removeStep "a1") h))
    = timeline (on_timeline (TimelineStore.removeStep "a1") h).
Proof.
  intros old other f h.
  destruct (editorSave_spec "u" "now" f None h) as (_ & Hsave).
  destruct Hsave as (Hclosed & _); [done|].
  destruct (editorSave_spec "u" "now" f None
              (on_timeline (TimelineStore.removeStep "a1") h)) as (_ & Hgone).
  destruct Hgone as (_ & _ & _ & _ & _ & _ & Hedit & _); [done|].
  destruct (Hedit old) as (_ & _ & Habsent); [done|done|].
  split; [by vm_compute|]. split; [exact Hclosed|].
  apply Habsent. vm_compute.
  intros Hin. repeat (apply elem_of_cons in Hin as [Hin|Hin]; [discriminate|]).
  by apply elem_of_nil in Hin.
Defined.

End HomePageFacts.

(** ** The assertion dialog *)

Module AssertionEditorFacts.
Import StepModel AssertionEditor.

Lemma truthy_true (s : string) : truthy s = true ↔ s ≠ EmptyString.
Proof.
  unfold truthy. rewrite negb_true_iff, bool_decide_eq_false. done.
Qed.

Lemma needsAttribute_needsExpected (t : string) :
  needsAttribute t = true → needsExpected t = true.
Proof.
  unfold needsAttribute, needsExpected. intros ->%bool_decide_eq_true.
  by vm_compute.
Qed.

Lemma needsExpected_not_api (t : string) :
  needsExpected t = true → needsApiConfig t = false.
Proof.
  unfold needsApiConfig. intros He. apply bool_decide_eq_false. intros ->.
  by vm_compute in He.
Qed.

Lemma has_keys_build (f : Form) (parsed : option Z) :
  has_keys (build_config f parsed)
  = needsExpected (assertionType f) || needsApiConfig (assertionType f).
Proof.
  unfold has_keys, build_config. simpl.
  destruct (needsExpected (assertionType f)) eqn:He; [done|].
  destruct (needsAttribute (assertionType f)) eqn:Ha.
  { apply needsAttribute_needsExpected in Ha. congruence. }
  by destruct (needsApiConfig (assertionType f)).
Qed.

Lemma status_or_200_cases (parsed : option Z) :
  status_or_200 parsed ≠ 0%Z
  ∧ (status_or_200 parsed = 200%Z ∨ parsed = Some (status_or_200 parsed)).
Proof.
  unfold status_or_200. destruct parsed as [n|]; [|by split; [|left]].
  case_decide; [by split; [|left]|]. split; [done|by right].
Qed.

(** X15: the object the dialog hands over on Save.  It keeps the id of
    the edited step and the chosen type.  The selector key is undefined
    exactly for the URL and API assertions, and is the typed selector
    otherwise, which is not empty whenever the Save button is enabled.
    The config is undefined exactly when the type needs neither an expected
    value nor an API description (visible, hidden).  In a config, expected
    and operator come together; an attribute only with them; the API keys
    only for the API assertion, and then without expected; the API status
    is never 0 (it is 200 or what was parsed); an empty body filter is left
    out.  The timestamp is not empty when the clock's is not. *)
Theorem handleSave_shape (step : option Step) (f : Form) (parsed : option Z)
    (now : string) :
  let d := handleSave step f parsed now in
  let t := assertionType f in
  d_type d = t ∧ d_id d = id <$> step
  ∧ (d_selector d = None ↔ t = "assert_url" ∨ t = "assert_api")
  ∧ (d_selector d = None ∨ d_selector d = Some (f_selector f))
  ∧ (canSave f = true → d_selector d ≠ Some EmptyString)
  ∧ (d_config d = None
     ↔ t ∉ ["assert_text"; "assert_value"; "assert_attribute"; "assert_url";
            "assert_api"])
  ∧ (∀ c, d_config d = Some c →
       (is_Some (expected c) ↔ is_Some (operator c))
       ∧ (is_Some (attribute c) → is_Some (expected c))
       ∧ (is_Some (api_status c) ↔ t = "assert_api")
       ∧ (is_Some (api_method c) ↔ t = "assert_api")
       ∧ (is_Some (api_url_pattern c) ↔ t = "assert_api")
       ∧ (is_Some (api_status c) → expected c = None)
       ∧ api_status c ≠ Some 0%Z
       ∧ (api_status c = None ∨ api_status c = Some 200%Z ∨ api_status c = parsed)
       ∧ api_body_contains c ≠ Some EmptyString)
  ∧ (now ≠ EmptyString → d_timestamp d ≠ EmptyString).
Proof.
  intros d t. subst d t. unfold handleSave. simpl.
  split; [done|]. split; [done|].
  split.
  { unfold needsSelector.
    destruct (decide (assertionType f ∈ ["assert_url"; "assert_api"])) as [Hin|Hin].
    - rewrite bool_decide_true by done. simpl. split; [|done]. intros _.
      rewrite !elem_of_cons in Hin. destruct Hin as [?|[?|Hin]]; auto.
      by apply elem_of_nil in Hin.
    - rewrite bool_decide_false by done. simpl. split; [done|].
      intros Ht. exfalso. apply Hin. rewrite !elem_of_cons. tauto. }
  split; [destruct (needsSelector _); auto|].
  split.
  { unfold canSave. intros Hcan.
    destruct (needsSelector (assertionType f)); [|done]. simpl in Hcan.
    rewrite negb_involutive in Hcan. apply truthy_true in Hcan. congruence. }
  split.
  { rewrite has_keys_build. unfold needsExpected, needsApiConfig.
    rewrite !not_elem_of_cons.
    destruct (decide (assertionType f
                      ∈ ["assert_text"; "assert_value"; "assert_attribute";
                         "assert_url"])) as [Hin|Hin].
    - rewrite bool_decide_true by done. simpl. split; [done|].
      rewrite !elem_of_cons in Hin. intros (? & ? & ? & ? & _).
      destruct Hin as [?|[?|[?|[?|Hin]]]]; try done. by apply elem_of_nil in Hin.
    - rewrite bool_decide_false by done. simpl.
      rewrite !not_elem_of_cons in Hin. destruct Hin as (? & ? & ? & ? & _).
      case_bool_decide as Hapi; simpl; split; try done.
      + by intros (_ & _ & _ & _ & ? & _).
      + intros _. repeat split; try done. by intros ?%elem_of_nil. }
  split.
  { intros c Hc. rewrite has_keys_build in Hc.
    pose proof (status_or_200_cases parsed) as [Hnz Hst].
    destruct (needsExpected (assertionType f)) eqn:He.
    - pose proof (needsExpected_not_api _ He) as Hapi. simpl in Hc.
      injection Hc as Hc. subst c. unfold build_config. rewrite He, Hapi. simpl.
      unfold needsApiConfig in Hapi. apply bool_decide_eq_false in Hapi.
      repeat split; try done; eauto;
        try (by intros [? ?]); try (by intros ?).
    - simpl in Hc. destruct (needsApiConfig (assertionType f)) eqn:Hapi; [|done].
      injection Hc as Hc. subst c. unfold build_config. rewrite He, Hapi. simpl.
      destruct (needsAttribute (assertionType f)) eqn:Ha.
      { apply needsAttribute_needsExpected in Ha. congruence. }
      unfold needsApiConfig in Hapi. apply bool_decide_eq_true in Hapi.
      repeat split; try done; eauto; try (by intros [? ?]).
      + congruence.
      + destruct Hst as [Hst|Hst]; [rewrite Hst; auto|].
        right. right. by rewrite Hst at 2.
      + destruct (truthy (apiBodyContains f)) eqn:Hb; [|done].
        apply truthy_true in Hb. congruence. }
  intros Hnow. destruct step as [s|]; [|done].
  unfold or_else. destruct (truthy (timestamp s)) eqn:Hts; [|done].
  by apply truthy_true in Hts.
Qed.

Lemma handleSave_shape_witness :
  let f := mkForm "assert_api" "#stale" "x" OpContains "href" "POST" "/api/login"
             "0" EmptyString in
  canSave f = true
  ∧ handleSave None f (Some 0%Z) "now"
    = mkDraft None "assert_api" None
        (Some (mkAssertionConfig None None None (Some "POST") (Some "/api/login")
                 (Some 200%Z) None))
        "now"
  ∧ d_selector (handleSave None f (Some 0%Z) "now") ≠ Some EmptyString.
Proof.
  intros f.
  destruct (handleSave_shape None f (Some 0%Z) "now")
    as (_ & _ & _ & _ & Hsel & _).
  split; [done|]. split; [done|]. by apply Hsel.
Defined.

End AssertionEditorFacts.

(** ** The healing panel *)

Module HealingPanelFacts.
Import TestRunPage HealingPanel.

Lemma pending_applied_length (l : list HealingSuggestion) :
  (length (pendingSuggestions l) + length (autoApplied l))%nat = length l.
Proof.
  unfold pendingSuggestions, autoApplied. induction l as [|s l IH]; [done|].
  rewrite !filter_cons. destruct (auto_approved s) eqn:Hs.
  - rewrite decide_False, decide_True by done. simpl. lia.
  - rewrite decide_True, decide_False by done. simpl. lia.
Qed.


Lemma pending_nil_iff (l : list HealingSuggestion) :
  pendingSuggestions l = [] ↔ Forall (λ s, auto_approved s = true) l.
Proof.
  unfold pendingSuggestions. induction l as [|s l IH]; [done|].
  rewrite filter_cons. destruct (auto_approved s) eqn:Hs.
  - rewrite decide_False by done. rewrite IH. split.
    + intros Hl. by constructor.
    + intros Hl. by inversion Hl.
  - rewrite decide_True by done. split; [done|].
    intros Hl. inversion Hl. congruence.
Qed.

Lemma header_all_applied (l : list HealingSuggestion) :
  Forall (λ s, auto_approved s = true) l → header l = (length l, "applied").
Proof.
  intros Hall. apply pending_nil_iff in Hall. unfold header.
  pose proof (pending_applied_length l) as Hlen.
  destruct (decide (0 < length (pendingSuggestions l))%nat) as [Hp|Hp].
  - rewrite Hall in Hp. simpl in Hp. lia.
  - rewrite Hall in Hlen. simpl in Hlen. by rewrite Hlen.
Qed.


End HealingPanelFacts.

(** ** The test-run page: runs, approval requests, and the healing panel *)

Module TestRunControlsFacts.
Import TestRunPage TestRunControls.









Lemma runStatus_approveHealing (snapshot : list StepStatus)
    (suggestion : HealingSuggestion) (ok : bool) (w : World) :
  runStatus (page (approveHealing snapshot suggestion ok w)) = runStatus (page w)
  ∧ testId (page (approveHealing snapshot suggestion ok w)) = testId (page w)
  ∧ showHealing (page (approveHealing snapshot suggestion ok w)) = showHealing (page w).
Proof.
  unfold approveHealing. destruct (truthy_id _); [|done]. by destruct ok.
Qed.

Lemma runStatus_approve_each (snapshot : list StepStatus)
    (pending : list HealingSuggestion) (oks : list bool) (w : World) :
  runStatus (page (approve_each snapshot pending oks w)) = runStatus (page w)
  ∧ testId (page (approve_each snapshot pending oks w)) = testId (page w)
  ∧ showHealing (page (approve_each snapshot pending oks w)) = showHealing (page w).
Proof.
  revert oks w. induction pending as [|s rest IH]; intros oks w; [done|].
  simpl. destruct (IH (tail oks) (approveHealing snapshot s (hd true oks) w))
    as (-> & -> & ->).
  apply runStatus_approveHealing.
Qed.





(** *** A pending approval request *)

Lemma pendingApproval_step (op : Op) (w : World) :
  (∀ sid r, op ≠ Deliver sid (EvApprovalRequest r)) →
  (∀ approved, op ≠ ApprovalResponse approved) →
  pendingApproval (page (step op w)) = pendingApproval (page w).
Proof.
  intros Hreq Hresp.
  destruct op as [ok|ok|sid ev| |approved|stepId outcome|suggestion ok|suggestion
                 |oks| | | ]; simpl; try done.
  - unfold startRun. destruct (test (page w)); [|done]. by destruct ok.
  - unfold rerun, startRun. simpl. destruct (test (page w)); [|done]. by destruct ok.
  - unfold deliver. destruct (is_connected sid w); [|done].
    destruct ev as [image|index status err|m|h|r|success message|message]; simpl;
      try done.
    + unfold on_healing. by destruct (auto_approved h).
    + by destruct (Hreq sid r).
    + by destruct success.
  - unfold stopRun. by destruct (ws (page w)).
  - by destruct (Hresp approved).
  - unfold deleteStep. destruct (test (page w)); [|done].
    destruct (runStatus (page w)); try done;
      (destruct outcome as [| |data]; [done|done|];
       by destruct (tr_latest_version data)).
  - apply TestRunPageFacts.approveHealing_frame.
  - apply TestRunPageFacts.approve_each_frame.
Qed.

(** X17: an approval request outlives its run.  Only an approval request
    event and an answer given while a socket is held change
    [pendingApproval]: stopping the run, a terminal event and the start of
    the next run leave it as it is.  So a request that is pending when the
    run is stopped is still pending in the next run, and the answer to it is
    sent on the socket of that next run, which carried no request. *)
Theorem approval_request_outlives_run (w : World) (r : ApprovalRequest) :
  pendingApproval (page w) = Some r →
  is_Some (test (page w)) →
  (∀ op,
     (∀ sid r', op ≠ Deliver sid (EvApprovalRequest r')) →
     (∀ approved, op ≠ ApprovalResponse approved) →
     pendingApproval (page (step op w)) = Some r)
  ∧ (∀ approved, ws (page w) = None → handleApprovalResponse approved w = w)
  ∧ (let w1 := startRun true (stopRun w) in
     let sid := length (sockets w) in
     pendingApproval (page w1) = Some r
     ∧ ws (page w1) = Some sid
     ∧ sockets w1 !! sid = Some {| connected := true; sent := [] |}
     ∧ ∀ approved,
         sockets (handleApprovalResponse approved w1) !! sid
         = Some {| connected := true;
                   sent := [("approval_response", PApproved approved)] |}
         ∧ pendingApproval (page (handleApprovalResponse approved w1)) = None).
Proof.
  intros Hr [t Ht]. split; [|split].
  - intros op Hreq Hresp. by rewrite pendingApproval_step.
  - intros approved Hws. unfold handleApprovalResponse. by rewrite Hws.
  - assert (length (sockets (stopRun w)) = length (sockets w)) as Hlen.
    { unfold stopRun. destruct (ws (page w)); simpl; [|done].
      apply length_alter. }
    assert (pendingApproval (page (stopRun w)) = Some r) as Hr'.
    { unfold stopRun. by destruct (ws (page w)). }
    assert (test (page (stopRun w)) = Some t) as Ht'.
    { unfold stopRun. by destruct (ws (page w)). }
    revert Hlen Hr' Ht'. generalize (stopRun w). intros w0 Hlen Hr' Ht'.
    simpl. unfold startRun. rewrite Ht'. simpl.
    split; [done|]. rewrite <- Hlen. split; [done|].
    split; [by rewrite lookup_app_r, Nat.sub_diag by lia|].
    intros approved. unfold handleApprovalResponse. simpl. rewrite Hr'. simpl.
    split; [|done].
    rewrite list_lookup_alter_eq, lookup_app_r, Nat.sub_diag by lia. done.
Qed.

Lemma approval_request_outlives_run_witness :
  let w := deliver 0 (EvApprovalRequest Scenario.approval_for_step_2)
             Scenario.in_flight in
  let w1 := startRun true (stopRun w) in
  pendingApproval (page w1) = Some Scenario.approval_for_step_2
  ∧ sent <$> sockets (handleApprovalResponse true w1)
    = [[]; [("approval_response", PApproved true)]].
Proof.
  intros w w1.
  destruct (approval_request_outlives_run w Scenario.approval_for_step_2)
    as (_ & _ & Hnext & _); [done|by eexists|].
  split; [exact Hnext|]. by vm_compute.
Defined.

(** *** Reject *)

(** X19: Reject drops every suggestion made for the step of the rejected
    one, applied ones included, and keeps the others in order.  It calls no
    API and sends nothing: the steps (and a selector written back earlier)
    stay as they are, and so do the sockets, the run status and the tab
    shown, also when the list becomes empty.  Rejecting twice is rejecting
    once, and rejections for different steps commute. *)
Theorem rejectHealing_spec (suggestion : HealingSuggestion) (w : World) :
  let w' := handleRejectHealing suggestion w in
  (∀ h, h ∈ healingSuggestions (page w')
        ↔ h ∈ healingSuggestions (page w) ∧ step_index h ≠ step_index suggestion)
  ∧ healingSuggestions (page w') `sublist_of` healingSuggestions (page w)
  ∧ stepStatuses (page w') = stepStatuses (page w)
  ∧ api_calls w' = api_calls w
  ∧ sockets w' = sockets w
  ∧ runStatus (page w') = runStatus (page w)
  ∧ showHealing (page w') = showHealing (page w)
  ∧ handleRejectHealing suggestion w' = w'
  ∧ (∀ other, handleRejectHealing other w'
              = handleRejectHealing suggestion (handleRejectHealing other w))
  ∧ ((∀ h, h ∈ healingSuggestions (page w) → step_index h ≠ step_index suggestion) →
     w' = w).
Proof.
  intros w'. subst w'. unfold handleRejectHealing. simpl.
  split. { intros h. rewrite list_elem_of_filter. tauto. }
  split; [apply sublist_filter|].
  do 5 (split; [done|]).
  split. { unfold on_page. simpl. by rewrite list_filter_filter, (list_filter_iff _ (λ s, step_index s ≠ step_index suggestion)) by tauto. }
  split.
  { intros other. unfold on_page, set_healingSuggestions. simpl. do 2 f_equal.
    rewrite !list_filter_filter. apply list_filter_iff. tauto. }
  intros Hnone. destruct w as [p sk api]. unfold on_page. simpl in *. f_equal.
  destruct p. unfold set_healingSuggestions. simpl in *. f_equal.
  induction healingSuggestions0 as [|h l IH]; [done|].
  rewrite filter_cons_True by (apply Hnone; left).
  f_equal. apply IH. intros h' Hh'. apply Hnone. by right.
Qed.

Lemma rejectHealing_spec_witness :
  let w := run [Deliver 0 (EvHealing Scenario.low_confidence);
                Deliver 0 (EvHealing Scenario.second_opinion);
                ApproveHealing Scenario.low_confidence true] Scenario.in_flight in
  let w' := handleRejectHealing Scenario.second_opinion w in
  healingSuggestions (page w') = []
  ∧ showHealing (page w') = true
  ∧ ss_selector <$> stepStatuses (page w') !! 2 = Some (Some "#signin-btn")
  ∧ handleRejectHealing Scenario.draft_repair w = w.
Proof.
  intros w w'.
  destruct (rejectHealing_spec Scenario.draft_repair w)
    as (_ & _ & _ & _ & _ & _ & _ & _ & _ & Hnone).
  split; [by vm_compute|]. split; [by vm_compute|]. split; [by vm_compute|].
  apply Hnone. vm_compute. intros h Hh.
  repeat (apply elem_of_cons in Hh as [->|Hh]; [discriminate|]).
  by apply elem_of_nil in Hh.
Defined.

(** *** Apply All *)

Lemma approveHealing_api (snapshot : list StepStatus) (s : HealingSuggestion)
    (ok : bool) (w : World) :
  api_calls (approveHealing snapshot s ok w)
  = api_calls w ++ option_list (approve_call (testId (page w)) snapshot s).
Proof.
  unfold approveHealing, approve_call.
  destruct (truthy_id _) as [stepId|]; simpl; [by destruct ok|].
  by rewrite app_nil_r.
Qed.

Lemma approve_each_api (snapshot : list StepStatus) (pending : list HealingSuggestion)
    (oks : list bool) (w : World) :
  api_calls (approve_each snapshot pending oks w)
  = api_calls w ++ omap (approve_call (testId (page w)) snapshot) pending.
Proof.
  revert oks w. induction pending as [|s rest IH]; intros oks w; simpl.
  - by rewrite app_nil_r.
  - rewrite IH, approveHealing_api.
    destruct (runStatus_approveHealing snapshot s (hd true oks) w) as (_ & -> & _).
    destruct (approve_call (testId (page w)) snapshot s); simpl.
    + by rewrite <- app_assoc.
    + by rewrite app_nil_r.
Qed.

Lemma approveHealing_suggestions (snapshot : list StepStatus) (s : HealingSuggestion)
    (ok : bool) (w : World) :
  healingSuggestions (page (approveHealing snapshot s ok w))
  = if ok && bool_decide (is_Some (approve_call (testId (page w)) snapshot s))
    then mark_approved s <$> healingSuggestions (page w)
    else healingSuggestions (page w).
Proof.
  unfold approveHealing, approve_call.
  destruct (truthy_id _) as [stepId|]; simpl.
  - by destruct ok.
  - by destruct ok.
Qed.

Lemma with_auto_approved_same (h : HealingSuggestion) :
  auto_approved h = true → with_auto_approved true h = h.
Proof. destruct h. simpl. by intros ->. Qed.

Lemma mark_approved_raises (s : HealingSuggestion) (l : list HealingSuggestion) :
  Forall2 (λ h h', h' = h ∨ h' = with_auto_approved true h) l (mark_approved s <$> l).
Proof.
  induction l as [|h l IH]; [constructor|].
  rewrite fmap_cons. constructor; [|done].
  unfold mark_approved. case_decide; auto.
Qed.

Lemma raises_refl (l : list HealingSuggestion) :
  Forall2 (λ h h', h' = h ∨ h' = with_auto_approved true h) l l.
Proof. induction l; constructor; auto. Qed.

Lemma raises_trans (l1 l2 l3 : list HealingSuggestion) :
  Forall2 (λ h h', h' = h ∨ h' = with_auto_approved true h) l1 l2 →
  Forall2 (λ h h', h' = h ∨ h' = with_auto_approved true h) l2 l3 →
  Forall2 (λ h h', h' = h ∨ h' = with_auto_approved true h) l1 l3.
Proof.
  intros H12. revert l3. induction H12 as [|a b l1 l2 Hab _ IH]; intros l3 H23.
  - by inversion H23.
  - inversion H23 as [|b' c l2' l3' Hbc Hrest]; subst. constructor; [|by apply IH].
    destruct Hab as [->| ->]; destruct Hbc as [->| ->]; auto.
Qed.

Lemma approve_each_raises (snapshot : list StepStatus)
    (pending : list HealingSuggestion) (oks : list bool) (w : World) :
  Forall2 (λ h h', h' = h ∨ h' = with_auto_approved true h)
    (healingSuggestions (page w))
    (healingSuggestions (page (approve_each snapshot pending oks w))).
Proof.
  revert oks w. induction pending as [|s rest IH]; intros oks w; simpl.
  - apply raises_refl.
  - eapply raises_trans; [|apply IH].
    rewrite approveHealing_suggestions.
    destruct (_ && _); [apply mark_approved_raises|apply raises_refl].
Qed.

Lemma approve_each_all (snapshot : list StepStatus)
    (pending : list HealingSuggestion) (oks : list bool) (w : World) :
  Forall (λ b, b = true) oks →
  Forall (λ s, is_Some (approve_call (testId (page w)) snapshot s)) pending →
  (∀ h, h ∈ healingSuggestions (page w) →
        auto_approved h = true ∨ step_index h ∈ step_index <$> pending) →
  ∀ h, h ∈ healingSuggestions (page (approve_each snapshot pending oks w)) →
       auto_approved h = true.
Proof.
  revert oks w. induction pending as [|s rest IH]; intros oks w Hoks Hids Hcover h Hh.
  - simpl in Hh. destruct (Hcover h Hh) as [?|Hin]; [done|].
    by apply elem_of_nil in Hin.
  - simpl in Hh. inversion Hids as [|? ? Hs Hrest]; subst.
    assert (hd true oks = true) as Hok by (by destruct Hoks).
    assert (Forall (λ b, b = true) (tail oks)) as Htail by (by destruct Hoks).
    revert Hh. apply IH; [done| |].
    + by destruct (runStatus_approveHealing snapshot s (hd true oks) w)
        as (_ & -> & _).
    + intros h'. rewrite approveHealing_suggestions, Hok.
      rewrite bool_decide_true by done. simpl.
      intros (h0 & -> & Hh0)%list_elem_of_fmap. unfold mark_approved.
      case_decide as Hidx; [by left|].
      destruct (Hcover h0 Hh0) as [?|Hin]; [by left|]. right.
      rewrite fmap_cons in Hin. apply elem_of_cons in Hin as [?|?]; done.
Qed.

(** X20: Apply All.  The loop makes one persistence call for each
    pending suggestion whose step has an id in the step list the loop
    started with, in the order of the list, whether or not earlier calls
    failed.  It keeps the number and order of the suggestions and changes at
    most their applied flag, from false to true; it touches no socket and
    not the run status.  With nothing pending it changes nothing.  When
    every pending suggestion has such a step and no call fails, nothing is
    pending afterwards and the panel's header counts every suggestion as
    applied. *)
Theorem approveAll_spec (oks : list bool) (w : World) :
  let pending := pendingHealing (healingSuggestions (page w)) in
  let w' := handleApproveAllHealing oks w in
  api_calls w'
  = api_calls w
    ++ omap (approve_call (testId (page w)) (stepStatuses (page w))) pending
  ∧ Forall2 (λ h h', h' = h ∨ h' = with_auto_approved true h)
      (healingSuggestions (page w)) (healingSuggestions (page w'))
  ∧ length (healingSuggestions (page w')) = length (healingSuggestions (page w))
  ∧ sockets w' = sockets w
  ∧ runStatus (page w') = runStatus (page w)
  ∧ pendingApproval (page w') = pendingApproval (page w)
  ∧ (pending = [] → w' = w)
  ∧ (Forall (λ b, b = true) oks →
     Forall (λ s, is_Some (approve_call (testId (page w)) (stepStatuses (page w)) s))
       pending →
     pendingHealing (healingSuggestions (page w')) = []
     ∧ HealingPanel.header (healingSuggestions (page w'))
       = (length (healingSuggestions (page w)), "applied")).
Proof.
  intros pending w'. subst pending w'. unfold handleApproveAllHealing.
  pose proof (approve_each_raises (stepStatuses (page w))
                (pendingHealing (healingSuggestions (page w))) oks w) as Hraise.
  split; [apply approve_each_api|]. split; [done|].
  split; [symmetry; by eapply Forall2_length|].
  split; [apply TestRunPageFacts.approve_each_frame|].
  split; [apply runStatus_approve_each|].
  split; [apply TestRunPageFacts.approve_each_frame|].
  split; [by intros ->|].
  intros Hoks Hids.
  assert (Forall (λ s, auto_approved s = true)
            (healingSuggestions
               (page (approve_each (stepStatuses (page w))
                        (pendingHealing (healingSuggestions (page w))) oks w))))
    as Hall.
  { apply list.Forall_forall. intros h.
    apply approve_each_all; [done|done|].
    intros h0 Hh0. destruct (auto_approved h0) eqn:Hflag; [by left|]. right.
    apply list_elem_of_fmap. exists h0. split; [done|].
    unfold pendingHealing. by apply list_elem_of_filter. }
  split.
  - by apply HealingPanelFacts.pending_nil_iff.
  - rewrite HealingPanelFacts.header_all_applied by done.
    f_equal. symmetry. by eapply Forall2_length.
Qed.

Lemma approveAll_spec_witness :
  let w := run [Deliver 0 (EvHealing Scenario.low_confidence);
                Deliver 0 (EvHealing Scenario.draft_repair)] Scenario.in_flight in
  let w' := handleApproveAllHealing [false] w in
  api_calls w'
  = [ApiGetTest "t1";
     ApiApproveSuggestionForStep "t1" "s2" "#signin-btn";
     ApiApproveSuggestionForStep "t1" "s0" "#start"]
  ∧ auto_approved <$> healingSuggestions (page w') = [false; true]
  ∧ pendingHealing (healingSuggestions (page (handleApproveAllHealing [] w))) = [].
Proof.
  intros w w'.
  destruct (approveAll_spec [] w) as (_ & _ & _ & _ & _ & _ & _ & Hall).
  destruct Hall as (Hnone & _).
  { constructor. }
  { repeat constructor; by vm_compute; eexists. }
  split; [by vm_compute|]. split; [by vm_compute|]. exact Hnone.
Defined.

(** *** Starting a run, and deleting a step between runs *)




(** X25: deleting a step between runs.  With a test loaded and no run in
    progress, [deleteStep] calls the delete API and, unless that is
    rejected, fetches the test again.  It removes nothing from the list
    itself: when a call is rejected the list is as before and the error is
    set; when the reload resolves, the list is rebuilt from the answer, all
    pending, indexed by position and without healed selectors, or kept as it
    was when the answer has no version.  Suggestions, metrics, sockets and
    run status are not touched, so a suggestion held from the last run keeps
    its step index whatever step is at that index now. *)
Theorem deleteStep_between_runs (stepId : string) (outcome : DeleteOutcome)
    (w : World) :
  is_Some (test (page w)) →
  runStatus (page w) ≠ RunRunning →
  let w' := deleteStep stepId outcome w in
  let tid := testId (page w) in
  api_calls w'
  = api_calls w
    ++ ApiDeleteStep tid stepId
       :: match outcome with DeleteRejected => [] | _ => [ApiGetTest tid] end
  ∧ healingSuggestions (page w') = healingSuggestions (page w)
  ∧ metrics (page w') = metrics (page w)
  ∧ sockets w' = sockets w
  ∧ runStatus (page w') = runStatus (page w)
  ∧ ws (page w') = ws (page w)
  ∧ (outcome = DeleteRejected ∨ outcome = ReloadRejected →
     stepStatuses (page w') = stepStatuses (page w)
     ∧ test (page w') = test (page w)
     ∧ error (page w') = Some "Failed to delete step")
  ∧ (∀ data, outcome = Reloaded data →
       test (page w') = Some data
       ∧ error (page w') = error (page w)
       ∧ (tr_latest_version data = None →
          stepStatuses (page w') = stepStatuses (page w))
       ∧ (∀ steps, tr_latest_version data = Some steps →
            length (stepStatuses (page w')) = length steps
            ∧ indexed (stepStatuses (page w'))
            ∧ ∀ pos s, steps !! pos = Some s →
                stepStatuses (page w') !! pos
                = Some (mkStepStatus (Z.of_nat pos) (ts_id s) (ts_type s) Pending
                          (ts_selector s) (ts_value s) None None))).
Proof.
  intros [t Ht] Hrun w' tid. subst w' tid. unfold deleteStep. rewrite Ht.
  destruct (runStatus (page w)) eqn:Hr; [|done| |].
  all: destruct outcome as [| |data]; simpl.
  all: try (repeat split; try done; try (by rewrite <- app_assoc);
            try (by intros [?|?]); by intros ? [=]).
  all: split; [destruct (tr_latest_version data); simpl; by rewrite <- app_assoc|].
  all: do 5 (split; [by destruct (tr_latest_version data)|]).
  all: split; [by intros [?|?]|].
  all: intros data' [= <-].
  all: split; [by destruct (tr_latest_version data)|].
  all: split; [by destruct (tr_latest_version data)|].
  all: split; [by intros ->|].
  all: intros steps ->; simpl.
  all: split; [apply length_imap|].
  all: split; [apply TestRunPageFacts.to_step_statuses_indexed|].
  all: intros pos s Hs; unfold to_step_statuses;
    by rewrite list_lookup_imap, Hs.
Qed.

Lemma deleteStep_between_runs_witness :
  let w := run [Deliver 0 (EvHealing Scenario.draft_repair);
                Deliver 0 (EvComplete false "step 0 failed")] Scenario.in_flight in
  let shorter := mkTestResponse "Login" "/login"
                   (Some [mkTestStep (Some "s1") "fill" (Some "#email") (Some "a@b.com");
                          mkTestStep (Some "s2") "click" (Some "#submit") None]) in
  let w' := deleteStep "s0" (Reloaded shorter) w in
  ss_id <$> stepStatuses (page w') = [Some "s1"; Some "s2"]
  ∧ healingSuggestions (page w') = [Scenario.draft_repair]
  ∧ api_calls (handleApproveHealing Scenario.draft_repair true w')
    = [ApiGetTest "t1"; ApiDeleteStep "t1" "s0"; ApiGetTest "t1";
       ApiApproveSuggestionForStep "t1" "s1" "#start"].
Proof.
  intros w shorter w'.
  assert (test (page w) = Some Scenario.login_test) as Ht by (by vm_compute).
  assert (runStatus (page w) ≠ RunRunning) as Hr by (by vm_compute).
  destruct (deleteStep_between_runs "s0" (Reloaded shorter) w (ex_intro _ _ Ht) Hr)
    as (_ & Hkept & _).
  split; [by vm_compute|]. split; [|by vm_compute].
  unfold w'. rewrite Hkept. by vm_compute.
Defined.

End TestRunControlsFacts.

(** ** The browser store, field by field *)

Module BrowserStoreFieldsFacts.
Import Types BrowserStore BrowserStoreFields.

Lemma replay_app (acts1 acts2 : list Action) (s : BrowserState) :
  replay (acts1 ++ acts2) s = replay acts2 (replay acts1 s).
Proof. unfold replay. by rewrite foldl_app. Qed.

(** X1: the fields of the browser store are independent, and the last
    write wins.  After any sequence of actions each field holds what the
    last action that writes this field wrote (a reset writes all three), and
    its old value when no action wrote it; what precedes a reset is
    forgotten. *)
Theorem replay_last_write (acts : list Action) (s : BrowserState) :
  status (replay acts s) = default (status s) (list.last (omap writes_status acts))
  ∧ screenshot (replay acts s)
    = default (screenshot s) (list.last (omap writes_screenshot acts))
  ∧ currentUrl (replay acts s)
    = default (currentUrl s) (list.last (omap writes_currentUrl acts))
  ∧ (∀ before after, acts = before ++ Reset :: after →
       replay acts s = replay after initial).
Proof.
  split; [|split; [|split]].
  - induction acts as [|a acts IH] using rev_ind; [done|].
    rewrite replay_app, omap_app. simpl.
    destruct a; simpl; rewrite ?app_nil_r, ?last_snoc; done.
  - induction acts as [|a acts IH] using rev_ind; [done|].
    rewrite replay_app, omap_app. simpl.
    destruct a; simpl; rewrite ?app_nil_r, ?last_snoc; done.
  - induction acts as [|a acts IH] using rev_ind; [done|].
    rewrite replay_app, omap_app. simpl.
    destruct a; simpl; rewrite ?app_nil_r, ?last_snoc; done.
  - intros before after ->. by rewrite replay_app.
Qed.

End BrowserStoreFieldsFacts.

(** ** The step types across the files *)

Module StepTypesFacts.
Import StepModel StepTypes.




End StepTypesFacts.

(** ** The settings page *)

Module SettingsPageFacts.
Import TestRunPage SettingsPage.

Lemma slider_threshold_range (k : Z) :
  sliderPosition k →
  (Q2Qc (Qmake 1 2) ≤ Q2Qc (Qmake k 100))%Qc
  ∧ (Q2Qc (Qmake k 100) ≤ Q2Qc (Qmake 99 100))%Qc.
Proof.
  intros [Hlo Hhi]. unfold Qcle. simpl. rewrite !Qred_correct.
  unfold Qle. simpl. lia.
Qed.

(** X22: [updateSetting] is optimistic with roll-back.  Before the
    settings are loaded it does nothing.  Otherwise it sends exactly the
    changed key; when the call resolves the page holds the settings with
    that key changed and shows saved; when it is rejected the page holds the
    settings it had before; either way saving is over.  The toggles send the
    negated flag, an unavailable provider cannot be selected, and a
    threshold set with the slider lies between 0.5 and 0.99. *)
Theorem updateSetting_spec (u : Update) (st : State) :
  (settings st = None → ∀ ok, updateSetting u ok st = st)
  ∧ (∀ s, settings st = Some s →
       settings (updateSetting u true st) = Some (apply_update u s)
       ∧ saved (updateSetting u true st) = true
       ∧ settings (updateSetting u false st) = Some s
       ∧ saved (updateSetting u false st) = false
       ∧ (∀ ok, updates (updateSetting u ok st) = updates st ++ [u]
                ∧ saving (updateSetting u ok st) = false)
       ∧ updates (toggleEnabled true st) = updates st ++ [SetEnabled (negb (enabled s))]
       ∧ settings (toggleEnabled true (toggleEnabled true st)) = Some s
       ∧ updates (toggleAutoApprove true st)
         = updates st ++ [SetAutoApprove (negb (auto_approve s))]
       ∧ (∀ p ok, available p = false → selectProvider p ok st = st)
       ∧ (∀ k, sliderPosition k →
            ∃ s', settings (updateSetting (sliderUpdate k) true st) = Some s'
                  ∧ (Q2Qc (Qmake 1 2) ≤ auto_approve_threshold s')%Qc
                  ∧ (auto_approve_threshold s' ≤ Q2Qc (Qmake 99 100))%Qc
                  ∧ enabled s' = enabled s ∧ auto_approve s' = auto_approve s
                  ∧ mode s' = mode s ∧ provider s' = provider s)).
Proof.
  split.
  { intros Hnone ok. unfold updateSetting, updateSetting_begin. by rewrite Hnone. }
  intros s Hs. unfold toggleEnabled, toggleAutoApprove, selectProvider,
    updateSetting, updateSetting_begin. rewrite Hs. simpl.
  do 4 (split; [done|]).
  split; [by intros []|].
  split; [done|].
  split; [destruct s; simpl; by rewrite negb_involutive|].
  split; [done|].
  split; [by intros p ok ->|].
  intros k Hk. eexists. split; [done|]. simpl.
  destruct (slider_threshold_range k Hk) as [Hlo Hhi]. by repeat split.
Qed.

Lemma updateSetting_spec_witness :
  let s := Scenario.policy in
  let st := mkState (Some s) false false [] in
  settings (updateSetting (sliderUpdate 60) false st) = Some s
  ∧ updates (updateSetting (sliderUpdate 60) false st)
    = [SetThreshold (Q2Qc (Qmake 60 100))]
  ∧ auto_approve_threshold
      <$> settings (updateSetting (sliderUpdate 60) true st)
    = Some (Q2Qc (Qmake 60 100)).
Proof.
  intros s st.
  destruct (updateSetting_spec (sliderUpdate 60) st) as (_ & Hloaded).
  destruct (Hloaded s) as (_ & _ & Hback & _); [done|].
  split; [exact Hback|]. by split.
Defined.

(** X23: two updates in flight.  A second update started before the
    first one has settled is built on the optimistic settings, and each
    roll-back restores what its own callback saw.  So when the first call is
    rejected and the second resolves, the page ends with the settings from
    before both, in either order of settling, although the server accepted
    the second change; and when both are rejected, the first one first, the
    page ends with the first change in place although the server refused
    it. *)
Theorem overlapping_updates (a b : Update) (s : HealingSettings) (st : State) :
  settings st = Some s →
  let st1 := fst (updateSetting_begin a st) in
  let st2 := fst (updateSetting_begin b st1) in
  snd (updateSetting_begin a st) = Some s
  ∧ snd (updateSetting_begin b st1) = Some (apply_update a s)
  ∧ settings st2 = Some (apply_update b (apply_update a s))
  ∧ updates st2 = updates st ++ [a; b]
  ∧ settings (updateSetting_end (apply_update a s) true
                (updateSetting_end s false st2)) = Some s
  ∧ settings (updateSetting_end s false
                (updateSetting_end (apply_update a s) true st2)) = Some s
  ∧ settings (updateSetting_end (apply_update a s) false
                (updateSetting_end s false st2)) = Some (apply_update a s)
  ∧ settings (updateSetting_end (apply_update a s) true
                (updateSetting_end s true st2))
    = Some (apply_update b (apply_update a s)).
Proof.
  intros Hs. unfold updateSetting_begin. rewrite Hs. simpl.
  repeat split. by rewrite <- app_assoc.
Qed.

Lemma overlapping_updates_witness :
  let s := Scenario.policy in
  let st := mkState (Some s) false false [] in
  let st2 := fst (updateSetting_begin (SetMode "batch")
                    (fst (updateSetting_begin (SetEnabled false) st))) in
  let final := updateSetting_end (apply_update (SetEnabled false) s) true
                 (updateSetting_end s false st2) in
  settings final = Some s
  ∧ updates final = [SetEnabled false; SetMode "batch"]
  ∧ saved final = true.
Proof.
  intros s st st2 final.
  destruct (overlapping_updates (SetEnabled false) (SetMode "batch") s st)
    as (_ & _ & _ & _ & Hlost & _); [done|].
  split; [exact Hlost|]. by split.
Defined.

End SettingsPageFacts.
